(** * Bus-balance plotting helpers of the oemof examples

    The example scripts build an energy system, have an external library
    solve it and plot the flows around one bus.  The logic the scripts own is

    - [shape_legend], in two copies ([storage_investment_plot.py] and
      [variable_chp.py]): it rewrites the legend labels, optionally reverses
      handles and labels, shrinks the axes and installs the legend;
    - the tick computation at the end of [simple_dispatch_with_duals.py].

    Partitioning, slicing and stacking are done by the plotting library the
    scripts call; they are modelled from the specification in [BusBalance].

    Python strings are [string]s, Python lists are cells of a store addressed
    by location, so that in-place mutation and aliasing are visible.  The
    store keeps the numbers a call hands over as exact rationals [Q]; what an
    axes reports after [set_position], which is where rounding shows, is
    followed on binary64 floats in [FloatAxes]. *)

From Stdlib Require Import Ascii QArith Qabs Qround.
From Stdlib Require Floats.PrimFloat.
From stdpp Require Import gmap strings list sorting pretty.

(** * Part I: the programs *)

(** ** Results *)

Inductive result (E A : Type) :=
  | Ok (a : A)
  | Err (e : E).
Arguments Ok {E A} a.
Arguments Err {E A} e.

#[global] Instance result_ret {E} : MRet (result E) := fun A a => Ok a.

#[global] Instance result_bind {E} : MBind (result E) := fun A B k m =>
  match m with
  | Ok a => k a
  | Err e => Err e
  end.

(** ** Python strings *)

Module PyStr.

(** [startswith old s]: [s.startswith(old)]. *)
Fixpoint startswith (old s : string) : bool :=
  match old, s with
  | EmptyString, _ => true
  | String a old', String b s' => if Ascii.eqb a b then startswith old' s' else false
  | String _ _, EmptyString => false
  end.

(** The scan of [str.replace] for a non-empty [old]: [skip] counts the
    characters of a match that are still to be dropped. *)
Fixpoint replace_scan (old new : string) (skip : nat) (s : string) : string :=
  match s with
  | EmptyString => EmptyString
  | String c s' =>
      match skip with
      | S k => replace_scan old new k s'
      | O =>
          if startswith old s
          then new +:+ replace_scan old new (String.length old - 1) s'
          else String c (replace_scan old new 0 s')
      end
  end.

(** [s.replace('', new)] puts [new] in front of every character and at the
    end. *)
Fixpoint intersperse (new s : string) : string :=
  match s with
  | EmptyString => new
  | String c s' => new +:+ String c (intersperse new s')
  end.

(** [replace s old new]: [s.replace(old, new)], every non-overlapping
    occurrence from the left. *)
Definition replace (s old new : string) : string :=
  match old with
  | EmptyString => intersperse new s
  | String _ _ => replace_scan old new 0 s
  end.

(** [occurs c s]: [c in s] for a character [c]. *)
Fixpoint occurs (c : Ascii.ascii) (s : string) : bool :=
  match s with
  | EmptyString => false
  | String b s' => if Ascii.eqb c b then true else occurs c s'
  end.

(** [chars s]: [list(s)], the characters of [s] in order. *)
Fixpoint chars (s : string) : list Ascii.ascii :=
  match s with
  | EmptyString => []
  | String c s' => c :: chars s'
  end.

(** [contains old s]: [old in s], an occurrence of [old] somewhere in [s]. *)
Fixpoint contains (old s : string) : bool :=
  startswith old s
  || match s with
     | EmptyString => false
     | String _ s' => contains old s'
     end.

End PyStr.

(** ** The label rewriting of [shape_legend]

    The body of the [for label in labels] loop, the same in both copies. *)

Definition rewrite_label (node label : string) : string :=
  let label := PyStr.replace label "(" "" in
  let label := PyStr.replace label "), flow)" "" in
  let label := PyStr.replace label node "" in
  let label := PyStr.replace label "," "" in
  let label := PyStr.replace label " " "" in
  label.

(** ** The Python store

    Objects live in a store and are passed around by address; a list is
    mutated in place by [append] and [reverse], an axes by [set_position]
    and [legend].  Handles are matplotlib artists, opaque here; lists of
    handles and lists of labels are kept apart, a list of artists is never
    a list of strings. *)

Abbreviation addr := positive.

Definition handle := nat.

(** The position of an axes as the list [[x0, y0, width, height]] that
    [set_position] receives, in exact numbers.  The box matplotlib makes of
    the list, and the width it reports afterwards, are in [FloatAxes]. *)
Record Bbox := mkBbox { x0 : Q; y0 : Q; width : Q; height : Q }.

(** What [axes.legend] received from the [parameter] dictionary.  A list
    argument is read when the legend is built, so its contents at the time
    of the call are kept; [None] is Python's [None]. *)
Record LegendCall := mkLegendCall {
  lg_bbox_to_anchor : Q * Q;
  lg_loc : string;
  lg_ncol : Z;
  lg_handles : option (list handle);
  lg_labels : option (list string)
}.

Record Axes := mkAxes { position : Bbox; legend_ : option LegendCall }.

Record store := mkStore {
  handle_lists : gmap addr (list handle);
  label_lists : gmap addr (list string);
  axes_objs : gmap addr Axes
}.

Inductive error :=
  | KeyError (key : string)
  | ValueError (msg : string)
  | Unallocated (a : addr).

(** Computations on the store that may raise. *)
Definition py (A : Type) : Type := store -> result error (A * store).

#[global] Instance py_ret : MRet py := fun A a st => Ok (a, st).

#[global] Instance py_bind : MBind py := fun A B k m st =>
  match m st with
  | Ok (a, st') => k a st'
  | Err e => Err e
  end.

Definition raise {A} (e : error) : py A := fun _ => Err e.

(** The keyword arguments [shape_legend] reads; [None] is an absent key. *)
Record Kwargs := mkKwargs {
  kw_handles : option addr;
  kw_labels : option addr;
  kw_ax : option addr;
  kw_bbox_to_anchor : option (Q * Q);
  kw_loc : option string;
  kw_ncol : option Z;
  kw_plotshare : option Q
}.

(** [kwargs[key]] *)
Definition getitem {A} (key : string) (v : option A) : py A :=
  match v with
  | Some a => mret a
  | None => raise (KeyError key)
  end.

(** [kwargs.get(key, dflt)] *)
Definition get {A} (v : option A) (dflt : A) : A := default dflt v.

Module PyList.

Definition read_handles (l : addr) : py (list handle) :=
  fun st =>
    match handle_lists st !! l with
    | Some hs => Ok (hs, st)
    | None => Err (Unallocated l)
    end.

Definition read_labels (l : addr) : py (list string) :=
  fun st =>
    match label_lists st !! l with
    | Some ls => Ok (ls, st)
    | None => Err (Unallocated l)
    end.

(** [[]]: a new, empty list of labels. *)
Definition new_labels : py addr :=
  fun st =>
    let l := fresh (dom (label_lists st)) in
    Ok (l, mkStore (handle_lists st) (<[l := []]> (label_lists st)) (axes_objs st)).

(** [l.append(x)] *)
Definition append (l : addr) (x : string) : py unit :=
  fun st =>
    match label_lists st !! l with
    | Some ls =>
        Ok (tt, mkStore (handle_lists st) (<[l := ls ++ [x]]> (label_lists st))
                        (axes_objs st))
    | None => Err (Unallocated l)
    end.

(** [l.reverse()]: reverses the list object in place and returns [None]. *)
Definition reverse_handles (l : addr) : py unit :=
  fun st =>
    match handle_lists st !! l with
    | Some hs =>
        Ok (tt, mkStore (<[l := reverse hs]> (handle_lists st)) (label_lists st)
                        (axes_objs st))
    | None => Err (Unallocated l)
    end.

Definition reverse_labels (l : addr) : py unit :=
  fun st =>
    match label_lists st !! l with
    | Some ls =>
        Ok (tt, mkStore (handle_lists st) (<[l := reverse ls]> (label_lists st))
                        (axes_objs st))
    | None => Err (Unallocated l)
    end.

End PyList.

Module PyAxes.

(** [axes.get_position()] *)
Definition get_position (a : addr) : py Bbox :=
  fun st =>
    match axes_objs st !! a with
    | Some ax => Ok (position ax, st)
    | None => Err (Unallocated a)
    end.

(** [axes.set_position([x0, y0, width, height])] *)
Definition set_position (a : addr) (b : Bbox) : py unit :=
  fun st =>
    match axes_objs st !! a with
    | Some ax =>
        Ok (tt, mkStore (handle_lists st) (label_lists st)
                        (<[a := mkAxes b (legend_ ax)]> (axes_objs st)))
    | None => Err (Unallocated a)
    end.

(** The list an argument of [legend] refers to, [None] for [None]. *)
Definition contents {A} (read : addr -> py (list A)) (arg : option addr)
  : py (option (list A)) :=
  match arg with
  | Some l => xs ← read l; mret (Some xs)
  | None => mret None
  end.

Definition install_legend (a : addr) (call : LegendCall) : py unit :=
  fun st =>
    match axes_objs st !! a with
    | Some ax =>
        Ok (tt, mkStore (handle_lists st) (label_lists st)
                        (<[a := mkAxes (position ax) (Some call)]> (axes_objs st)))
    | None => Err (Unallocated a)
    end.

(** [axes.legend(bbox_to_anchor=.., loc=.., ncol=.., handles=.., labels=..)]:
    the arguments the call receives are recorded on the axes.  What
    matplotlib then makes of them, which includes refusing them, is not
    followed. *)
Definition legend (a : addr) (bbox : Q * Q) (loc : string) (ncol : Z)
    (handles labels : option addr) : py unit :=
  hs ← contents PyList.read_handles handles;
  ls ← contents PyList.read_labels labels;
  install_legend a (mkLegendCall bbox loc ncol hs ls).

End PyAxes.

(** [for x in xs: body(x)] *)
Fixpoint for_each {A} (xs : list A) (body : A -> py unit) : py unit :=
  match xs with
  | [] => mret tt
  | x :: xs' => body x;; for_each xs' body
  end.

(** ** [shape_legend] of [storage_investment_plot.py] *)

Module StorageInvestmentPlot.

Definition reverse_default : bool := false.

Definition shape_legend (node : string) (reverse : option bool) (kwargs : Kwargs)
  : py addr :=
  handels ← getitem "handles" (kw_handles kwargs);
  labels ← getitem "labels" (kw_labels kwargs);
  axes ← getitem "ax" (kw_ax kwargs);
  new_labels ← PyList.new_labels;
  items ← PyList.read_labels labels;
  for_each items (fun label =>
    PyList.append new_labels (rewrite_label node label));;
  let labels := new_labels in
  let bbox_to_anchor := get (kw_bbox_to_anchor kwargs) (1%Q, 0.5%Q) in
  let loc := get (kw_loc kwargs) "center left" in
  let ncol := get (kw_ncol kwargs) 1%Z in
  let plotshare := get (kw_plotshare kwargs) 0.9%Q in
  '(handels, labels) ←
    (if default reverse_default reverse
     then
       (* handels = handels.reverse(); labels = labels.reverse() *)
       PyList.reverse_handles handels;;
       PyList.reverse_labels labels;;
       mret (None, None)
     else mret (Some handels, Some labels));
  box ← PyAxes.get_position axes;
  PyAxes.set_position axes
    (mkBbox (x0 box) (y0 box) (width box * plotshare)%Q (height box));;
  PyAxes.legend axes bbox_to_anchor loc ncol handels labels;;
  mret axes.

End StorageInvestmentPlot.

(** ** [shape_legend] of [variable_chp.py] *)

Module VariableChp.

Definition reverse_default : bool := true.

Definition shape_legend (node : string) (reverse : option bool) (kwargs : Kwargs)
  : py addr :=
  handels ← getitem "handles" (kw_handles kwargs);
  labels ← getitem "labels" (kw_labels kwargs);
  axes ← getitem "ax" (kw_ax kwargs);
  new_labels ← PyList.new_labels;
  items ← PyList.read_labels labels;
  for_each items (fun label =>
    PyList.append new_labels (rewrite_label node label));;
  let labels := new_labels in
  let bbox_to_anchor := get (kw_bbox_to_anchor kwargs) (1%Q, 0.5%Q) in
  let loc := get (kw_loc kwargs) "center left" in
  let ncol := get (kw_ncol kwargs) 1%Z in
  let plotshare := get (kw_plotshare kwargs) 0.9%Q in
  (if default reverse_default reverse
   then
     (* handels.reverse(); labels.reverse() *)
     PyList.reverse_handles handels;;
     PyList.reverse_labels labels
   else mret tt);;
  box ← PyAxes.get_position axes;
  PyAxes.set_position axes
    (mkBbox (x0 box) (y0 box) (width box * plotshare)%Q (height box));;
  PyAxes.legend axes bbox_to_anchor loc ncol (Some handels) (Some labels);;
  mret axes.

End VariableChp.

(** ** The layout lines in double precision

    The store above records the four numbers a call passes to
    [set_position].  What the axes reports at the next [get_position] is
    another matter: Python's numbers are IEEE doubles, and matplotlib keeps
    the box of an axes as its two corners, [set_position] storing
    [Bbox.from_bounds(x0, y0, width, height)], that is the corners
    [(x0, y0)] and [(x0 + width, y0 + height)], while [box.width] and
    [box.height] are the differences of the corners.  Calls in a row are
    followed here in that representation, on the kernel's binary64 floats. *)

Module FloatAxes.
Import PrimFloat.

(** The box of an axes: its lower-left and upper-right corners. *)
Record Bbox := mkBbox { x0 : float; y0 : float; x1 : float; y1 : float }.

(** [Bbox.from_bounds(x0, y0, width, height)] *)
Definition from_bounds (x0 y0 width height : float) : Bbox :=
  mkBbox x0 y0 (x0 + width)%float (y0 + height)%float.

(** [box.width] *)
Definition width (box : Bbox) : float := (x1 box - x0 box)%float.

(** [box.height] *)
Definition height (box : Bbox) : float := (y1 box - y0 box)%float.

(** [[
    box = axes.get_position()
    axes.set_position([box.x0, box.y0, box.width * plotshare, box.height])
    ]]
    as a function from the position of the axes before the two lines to its
    position after them; an integer [plotshare], as in [plotshare=1], is
    converted to the double of the same value by the multiplication. *)
Definition layout (plotshare : float) (position : Bbox) : Bbox :=
  let box := position in
  from_bounds (x0 box) (y0 box) (width box * plotshare)%float (height box).

End FloatAxes.

(** ** The ticks of [simple_dispatch_with_duals.py]

    [[
    dates = node_results_flows.index
    tick_distance = int(len(dates) / 7) - 1
    ax.set_xticks(range(0, len(dates), tick_distance), minor=False)
    ax.set_xticklabels(
        [item.strftime("%d-%m-%Y") for item in dates.tolist()[0::tick_distance]],
        rotation=90, minor=False)
    ]]
    The timestamps and their [strftime] belong to pandas and stay abstract. *)

Module PySeq.

(** [int(q)]: truncation towards zero. *)
Definition int (q : Q) : Z := Z.quot (Qnum q) (Zpos (Qden q)).

(** The number of elements of [range(start, stop, step)], [step] not 0. *)
Definition range_length (start stop step : Z) : Z :=
  if (0 <? step)%Z
  then (if (start <? stop)%Z then (stop - start - 1) / step + 1 else 0)%Z
  else (if (stop <? start)%Z then (start - stop - 1) / (- step) + 1 else 0)%Z.

(** [range(start, stop, step)], as the list of its elements. *)
Definition range (start stop step : Z) : result error (list Z) :=
  if (step =? 0)%Z
  then Err (ValueError "range() arg 3 must not be zero")
  else Ok ((fun i => (start + i * step)%Z)
             <$> seqZ 0 (range_length start stop step)).

(** [l[0::step]].  A slice reads the elements at the indices of a range; for
    a negative step the omitted stop lies before index 0 and the start 0 is
    clipped into the list. *)
Definition slice_from_0 {A} (l : list A) (step : Z) : result error (list A) :=
  let len := Z.of_nat (length l) in
  if (step =? 0)%Z
  then Err (ValueError "slice step cannot be zero")
  else
    let start := if (0 <? step)%Z then 0%Z else Z.min 0 (len - 1) in
    let stop := if (0 <? step)%Z then len else (-1)%Z in
    Ok (omap (fun i => l !! Z.to_nat i)
             ((fun i => (start + i * step)%Z)
                <$> seqZ 0 (range_length start stop step))).

End PySeq.

Record TickCalls := mkTickCalls {
  xticks : list Z;            (* ax.set_xticks(..) *)
  xticklabels : list string   (* ax.set_xticklabels(..) *)
}.

Section Ticks.

Context {Timestamp : Type} (strftime : Timestamp -> string -> string).

Definition tick_distance (dates : list Timestamp) : Z :=
  (PySeq.int (inject_Z (Z.of_nat (length dates)) / 7) - 1)%Z.

(** The two calls on the axes, for a given [tick_distance]. *)
Definition set_ticks (dates : list Timestamp) (tick_distance : Z)
  : result error TickCalls :=
  positions ← PySeq.range 0 (Z.of_nat (length dates)) tick_distance;
  items ← PySeq.slice_from_0 dates tick_distance;
  mret (mkTickCalls positions ((fun item => strftime item "%d-%m-%Y") <$> items)).

Definition plot_ticks (dates : list Timestamp) : result error TickCalls :=
  set_ticks dates (tick_distance dates).

End Ticks.

(** ** The bus-balance compositor of the specification

    The scripts delegate partitioning ([oev.plot.divide_bus_columns]), slicing
    ([oev.plot.slice_df]) and stacking ([oev.plot.io_plot]) to the plotting
    library, whose code is not part of the examples.  The definitions below
    follow sections 3 and 4 of the specification. *)

Module BusBalance.

(** Modelled from the spec: the timestamps of section 3, as integers; the
    examples only hold the pandas tables of the library. *)
Definition Timestamp := Z.

(** Modelled from the spec: a node label, a string. *)
Definition NodeLabel := string.

(** Modelled from the spec: a color value of a StyleSpec. *)
Definition Color := string.

(** Modelled from the spec: FlowKey, the ordered pair (source label, target
    label). *)
Definition FlowKey : Type := NodeLabel * NodeLabel.

(** Modelled from the spec: the source label of a FlowKey. *)
Definition source (k : FlowKey) : NodeLabel := fst k.

(** Modelled from the spec: the target label of a FlowKey. *)
Definition target (k : FlowKey) : NodeLabel := snd k.

(** Modelled from the spec: FlowSeries, a FlowKey and its samples, one per
    timestamp of the shared time index. *)
Record FlowSeries := mkFlowSeries { key : FlowKey; samples : list Q }.

(** Modelled from the spec: FlowTable, the shared time index, the series in
    first-seen order and the optional scalar values. *)
Record FlowTable := mkFlowTable {
  index : list Timestamp;
  flows : list FlowSeries;
  scalars : list (FlowKey * Q)
}.

(** Modelled from the spec: BalanceView, the inflows and outflows of a bus. *)
Record BalanceView := mkBalanceView {
  inflows : list FlowKey;
  outflows : list FlowKey
}.

(** Modelled from the spec: TimeWindow, a start and an optional end. *)
Record TimeWindow := mkTimeWindow { w_start : Timestamp; w_end : option Timestamp }.

(** Modelled from the spec: SmoothingPolicy, the enum of section 3. *)
Inductive SmoothingPolicy := STEP | SMOOTH.

(** Modelled from the spec: the error kinds of section 7. *)
Inductive balance_error :=
  | EmptyBusError
  | SelfLoopError
  | EmptyWindowError
  | AmbiguousTickSpecError.

(** Modelled from the spec: a key references a bus when the bus is its
    source or its target. *)
Definition references (bus : NodeLabel) (k : FlowKey) : bool :=
  bool_decide (source k = bus) || bool_decide (target k = bus).

(** Modelled from the spec: a key is a self-loop on a bus when the bus is
    its source and its target. *)
Definition self_loop (bus : NodeLabel) (k : FlowKey) : bool :=
  bool_decide (source k = bus) && bool_decide (target k = bus).

(** Modelled from the spec: [partition] of section 4.1 (BalancePartitioner),
    which the examples take from the plotting library.  It fails with
    [EmptyBusError] when no key references the bus and with [SelfLoopError]
    when a key has source = target = bus; each group keeps the first-seen
    order of the table. *)
Definition partition (table : FlowTable) (bus : NodeLabel)
  : result balance_error BalanceView :=
  let keys := key <$> flows table in
  if negb (existsb (references bus) keys) then Err EmptyBusError
  else if existsb (self_loop bus) keys then Err SelfLoopError
  else Ok (mkBalanceView
             (filter (fun k => target k = bus) keys)
             (filter (fun k => source k = bus) keys)).

(** Modelled from the spec: the window of section 4.3 clipped to the
    available bounds, [None] on an empty index; an omitted end extends to
    the last sample.  Clipping intersects the window with the span of the
    index: a start before the first timestamp moves onto it, an end after
    the last one moves onto it, and a window that lies outside the index
    keeps no sample, as the last scenario of section 8 asks. *)
Definition clip (idx : list Timestamp) (window : TimeWindow)
  : option (Timestamp * Timestamp) :=
  match idx with
  | [] => None
  | first :: _ =>
      let last := List.last idx first in
      Some (Z.max (w_start window) first,
            Z.min (default last (w_end window)) last)
  end.

(** Modelled from the spec: the bounds of a window are inclusive. *)
Definition within (lo hi t : Timestamp) : bool :=
  ((lo <=? t) && (t <=? hi))%Z.

(** Modelled from the spec: the samples of one series whose timestamp lies
    within the bounds. *)
Definition keep (idx : list Timestamp) (lo hi : Timestamp) (s : FlowSeries)
  : FlowSeries :=
  mkFlowSeries (key s)
    (snd <$> filter (fun p => within lo hi (fst p) = true) (zip idx (samples s))).

(** Modelled from the spec: [slice] of section 4.3 (TimeWindowSlicer), which
    the examples take from the plotting library.  It keeps the samples whose
    timestamp is in the window, bounds outside the index being clipped to
    it, and fails with [EmptyWindowError] if none remains. *)
Definition slice (table : FlowTable) (window : TimeWindow)
  : result balance_error FlowTable :=
  match clip (index table) window with
  | None => Err EmptyWindowError
  | Some (lo, hi) =>
      match filter (fun t => within lo hi t = true) (index table) with
      | [] => Err EmptyWindowError
      | kept => Ok (mkFlowTable kept (keep (index table) lo hi <$> flows table)
                                (scalars table))
      end
  end.

(** Modelled from the spec: the render kind of section 4.4 with its points,
    an area between a baseline and a top or a line. *)
Inductive Shape :=
  | Area (baseline top : list Q)
  | Line (values : list Q).

(** Modelled from the spec: what a RenderPlan carries per series, the flow,
    its color and its shape. *)
Record RenderedSeries := mkRenderedSeries {
  r_key : FlowKey;
  r_color : Color;
  r_shape : Shape
}.

(** Modelled from the spec: RenderPlan of section 4.4, the policy and the
    series in drawing order. *)
Record RenderPlan := mkRenderPlan {
  plan_policy : SmoothingPolicy;
  plan_series : list RenderedSeries
}.

(** Modelled from the spec: the cumulative stack of section 4.4; every
    series is drawn from the running sum of the series before it up to that
    sum plus its own values. *)
Fixpoint stack (colors : FlowKey -> Color) (baseline : list Q)
    (ordered_in : list FlowSeries) : list RenderedSeries :=
  match ordered_in with
  | [] => []
  | s :: rest =>
      let top := zip_with Qplus baseline (samples s) in
      mkRenderedSeries (key s) (colors (key s)) (Area baseline top)
        :: stack colors top rest
  end.

(** Modelled from the spec: [compose] of section 4.4 (StackCompositor), which
    the examples take from the plotting library.  Inflows are stacked from a
    zero baseline, outflows are independent lines, and the plan records the
    policy the renderer is to draw the points with. *)
Definition compose (ordered_in ordered_out : list FlowSeries)
    (colors : FlowKey -> Color) (policy : SmoothingPolicy) : RenderPlan :=
  let zero := match ordered_in with
              | [] => []
              | s :: _ => (fun _ => 0%Q) <$> samples s
              end in
  mkRenderPlan policy
    (stack colors zero ordered_in
     ++ ((fun s => mkRenderedSeries (key s) (colors (key s)) (Line (samples s)))
           <$> ordered_out)).

(** Modelled from the spec: the two projection policies of section 3.  The
    value drawn [frac] of the way from sample [i] to sample [i + 1]: STEP
    holds sample [i] until the next timestamp, SMOOTH joins the two samples
    by a straight line. *)
Definition rendered (policy : SmoothingPolicy) (ys : list Q) (i : nat) (frac : Q)
  : option Q :=
  match policy with
  | STEP => ys !! i
  | SMOOTH =>
      match ys !! i, ys !! S i with
      | Some a, Some b => Some (a + frac * (b - a))%Q
      | Some a, None => Some a
      | None, _ => None
      end
  end.

(** Modelled from the spec: the rendered top of a series. *)
Definition top_of (r : RenderedSeries) : list Q :=
  match r_shape r with
  | Area _ top => top
  | Line values => values
  end.

(** Modelled from the spec: the rendered baseline of a series, zero for a
    line. *)
Definition baseline_of (r : RenderedSeries) : list Q :=
  match r_shape r with
  | Area baseline _ => baseline
  | Line values => (fun _ => 0%Q) <$> values
  end.

(** Modelled from the spec: the sum of the values of [series] at the
    timestamp of position [i]. *)
Definition total_at (i : nat) (series : list FlowSeries) : Q :=
  foldr Qplus 0%Q ((fun s => default 0%Q (samples s !! i)) <$> series).

End BusBalance.

(** * Part II: the vocabulary of the statements *)

(** The arguments of a call are in place: the three required keys are
    present and name a list of handles, a list of labels and an axes of the
    store. *)
Definition call_in (kw : Kwargs) (st : store) (lh ll la : addr)
    (hs : list handle) (ls : list string) (ax : Axes) : Prop :=
  kw_handles kw = Some lh ∧ kw_labels kw = Some ll ∧ kw_ax kw = Some la ∧
  handle_lists st !! lh = Some hs ∧ label_lists st !! ll = Some ls ∧
  axes_objs st !! la = Some ax.

(** The box [set_position] receives. *)
Definition shrunk (box : Bbox) (plotshare : Q) : Bbox :=
  mkBbox (x0 box) (y0 box) (width box * plotshare)%Q (height box).

(** The store a call leaves behind; only the arguments of [legend] depend
    on the copy of the function. *)
Definition store_after (node : string) (rev : bool) (kw : Kwargs) (st : store)
    (lh la : addr) (hs : list handle) (ls : list string) (ax : Axes)
    (arg_hs : option (list handle)) (arg_ls : option (list string)) : store :=
  let out_hs := if rev then reverse hs else hs in
  let out_ls := if rev then reverse (rewrite_label node <$> ls)
                else rewrite_label node <$> ls in
  mkStore (<[lh := out_hs]> (handle_lists st))
          (<[fresh (dom (label_lists st)) := out_ls]> (label_lists st))
          (<[la := mkAxes (shrunk (position ax) (get (kw_plotshare kw) 0.9%Q))
                          (Some (mkLegendCall
                                   (get (kw_bbox_to_anchor kw) (1%Q, 0.5%Q))
                                   (get (kw_loc kw) "center left")
                                   (get (kw_ncol kw) 1%Z)
                                   arg_hs arg_ls))]> (axes_objs st)).

(** [refers m arg xs]: the argument [arg] of [legend] is [None], or the
    address of a list of [m] whose contents are [xs]. *)
Inductive refers {A} (m : gmap addr (list A)) : option addr → option (list A) → Prop :=
  | refers_none : refers m None None
  | refers_some l xs : m !! l = Some xs → refers m (Some l) (Some xs).

(** What a caller sees of an axes after a call. *)
Definition axes_after (r : result error (addr * store)) : option Axes :=
  match r with
  | Ok (a, st) => axes_objs st !! a
  | Err _ => None
  end.

Definition store_of (r : result error (addr * store)) : option store :=
  match r with
  | Ok (_, st) => Some st
  | Err _ => None
  end.

(** A store and keyword arguments as [io_plot] hands them over. *)
Module Sample.

Definition labels : list string :=
  ["((pv, electricity), flow)"; "((wind, electricity), flow)";
   "((electricity, demand), flow)"]%string.

Definition handles : list handle := [10; 20; 30].

Definition axes : Axes := mkAxes (mkBbox 0.125 0.11 0.775 0.77) None.

Definition st : store :=
  mkStore {[ 1%positive := handles ]} {[ 2%positive := labels ]}
          {[ 3%positive := axes ]}.

Definition kwargs (plotshare : option Q) : Kwargs :=
  mkKwargs (Some 1%positive) (Some 2%positive) (Some 3%positive)
           None None None plotshare.

End Sample.

(** The legend label of a flow column: pandas prints the column tuple
    [((source, target), 'flow')] without quote characters. *)
Definition flow_label (source target : string) : string :=
  ("((" +:+ source +:+ ", " +:+ target +:+ "), flow)")%string.

(** A node label that is not empty and has no parenthesis, comma or space. *)
Definition clean_name (name : string) : Prop :=
  name ≠ ""%string
  ∧ PyStr.occurs "("%char name = false ∧ PyStr.occurs ")"%char name = false
  ∧ PyStr.occurs ","%char name = false ∧ PyStr.occurs " "%char name = false.

(** A call that does not end in a [KeyError], whatever the store. *)
Definition no_key_error {A} (call : py A) : Prop :=
  ∀ st key, call st ≠ Err (KeyError key).

(** What a call leaves alone: every list of handles but the one passed,
    every list of labels of the store, every axes but the one passed; the
    one thing it adds is a list of labels at a new address. *)
Definition leaves_rest (st st' : store) (lh la : addr) : Prop :=
  (∀ l, l ≠ lh → handle_lists st' !! l = handle_lists st !! l)
  ∧ (∀ l xs, label_lists st !! l = Some xs → label_lists st' !! l = Some xs)
  ∧ (∃ ln, label_lists st !! ln = None
           ∧ dom (label_lists st') = {[ln]} ∪ dom (label_lists st))
  ∧ (∀ l, l ≠ la → axes_objs st' !! l = axes_objs st !! l).

(** The legend a call installs when nothing is reversed: the handles as
    passed, the labels rewritten in their order, the placement as given or
    by default. *)
Definition plain_legend (node : string) (kw : Kwargs) (hs : list handle)
    (ls : list string) : LegendCall :=
  mkLegendCall (default (1%Q, 0.5%Q) (kw_bbox_to_anchor kw))
               (default "center left"%string (kw_loc kw))
               (default 1%Z (kw_ncol kw))
               (Some hs) (Some (rewrite_label node <$> ls)).

(** [names_flow node label other]: [label] is the legend label of a flow
    between the bus [node] and the node [other], either way, [other] being
    a clean name in which the bus label does not occur. *)
Definition names_flow (node label other : string) : Prop :=
  clean_name other ∧ PyStr.contains node other = false
  ∧ (label = flow_label node other ∨ label = flow_label other node).

(** Boxes for the layout lines in double precision. *)
Module FloatSample.
Import PrimFloat.
#[local] Set Warnings "-inexact-float".

(** The box of [Sample.axes]: x0 0.125, y0 0.11, width 0.775, height 0.77. *)
Definition box : FloatAxes.Bbox :=
  FloatAxes.from_bounds 0.125 0.11 0.775 0.77.

(** A box whose corners are 0.043 and 0.168 in x. *)
Definition narrow : FloatAxes.Bbox := FloatAxes.mkBbox 0.043 0.11 0.168 0.88.


End FloatSample.

(** * Part III: the proofs *)

(** ** Strings *)

Lemma append_empty_l s : ("" +:+ s)%string = s.
Proof. reflexivity. Qed.

Lemma chars_occurs c s : PyStr.occurs c s = true ↔ c ∈ PyStr.chars s.
Proof.
  induction s as [|b s IH]; simpl.
  - split; [done | by intros ?%elem_of_nil].
  - rewrite elem_of_cons, <- IH.
    destruct (Ascii.eqb_spec c b) as [Heq|Hne]; [by split; auto|].
    split; [by right | by intros [?|?]].
Qed.

(** [startswith] is the prefix test. *)
Lemma startswith_spec old s :
  PyStr.startswith old s = true ↔ ∃ rest, s = (old +:+ rest)%string.
Proof.
  revert s. induction old as [|a old IH]; intros s; simpl.
  - split; [intros _; by exists s | done].
  - destruct s as [|b s]; [split; [done | by intros [? [=]]]|].
    destruct (Ascii.eqb_spec a b) as [->|Hne].
    + rewrite IH. split; intros [rest Hrest]; exists rest.
      * by rewrite Hrest.
      * by injection Hrest.
    + split; [done|]. intros [rest Hrest]. by injection Hrest.
Qed.

Lemma replace_scan_skip old new t : ∀ s,
  PyStr.replace_scan old new (String.length t) (t +:+ s)
  = PyStr.replace_scan old new 0 s.
Proof.
  induction t as [|c t IH]; intros s; simpl; [by destruct s|]. apply IH.
Qed.

(** The three equations of [str.replace] for a non-empty [old]: an
    occurrence at the front is replaced and the scan goes on behind it, any
    other character is kept, the empty string stays empty. *)
Lemma replace_at_match a old s new :
  PyStr.replace (String a old +:+ s) (String a old) new
  = (new +:+ PyStr.replace s (String a old) new)%string.
Proof.
  unfold PyStr.replace.
  change (String a old +:+ s)%string with (String a (old +:+ s)).
  cbn [PyStr.replace_scan].
  assert (PyStr.startswith (String a old) (String a (old +:+ s)) = true) as Hpre
    by (apply startswith_spec; by exists s).
  rewrite Hpre. cbn [String.length]. rewrite Nat.sub_succ, Nat.sub_0_r.
  by rewrite replace_scan_skip.
Qed.

Lemma replace_off_match a old c s new :
  PyStr.startswith (String a old) (String c s) = false →
  PyStr.replace (String c s) (String a old) new
  = String c (PyStr.replace s (String a old) new).
Proof. intros H. unfold PyStr.replace. cbn [PyStr.replace_scan]. by rewrite H. Qed.

Lemma replace_empty a old new : PyStr.replace "" (String a old) new = ""%string.
Proof. reflexivity. Qed.

Example replace_non_overlapping : PyStr.replace "aaa" "aa" "b" = "ba"%string.
Proof. reflexivity. Qed.

Example replace_empty_old : PyStr.replace "abc" "" "-" = "-a-b-c-"%string.
Proof. reflexivity. Qed.

(** Replacing by the empty string only deletes characters. *)
Lemma replace_scan_sublist old s : ∀ skip,
  PyStr.chars (PyStr.replace_scan old "" skip s) `sublist_of` PyStr.chars s.
Proof.
  induction s as [|c s IH]; intros skip; simpl; [done|].
  destruct skip as [|k].
  - destruct (PyStr.startswith old (String c s)).
    + rewrite append_empty_l. by apply sublist_cons.
    + simpl. by apply sublist_skip.
  - by apply sublist_cons.
Qed.

Lemma intersperse_empty s : PyStr.intersperse "" s = s.
Proof. induction s as [|c s IH]; simpl; [done|]. by rewrite IH. Qed.

Lemma replace_sublist s old :
  PyStr.chars (PyStr.replace s old "") `sublist_of` PyStr.chars s.
Proof.
  destruct old; simpl.
  - by rewrite intersperse_empty.
  - apply replace_scan_sublist.
Qed.

Lemma occurs_sublist c s t :
  PyStr.chars s `sublist_of` PyStr.chars t →
  PyStr.occurs c t = false → PyStr.occurs c s = false.
Proof.
  intros Hsub Ht. destruct (PyStr.occurs c s) eqn:Hs; [|done].
  apply chars_occurs in Hs. eapply elem_of_sublist in Hs; [|exact Hsub].
  apply chars_occurs in Hs. congruence.
Qed.

(** Replacing a single character leaves none of it. *)
Lemma replace_char_gone c s :
  PyStr.occurs c (PyStr.replace s (String c "") "") = false.
Proof.
  unfold PyStr.replace.
  induction s as [|b s IH]; simpl; [done|].
  destruct (Ascii.eqb_spec c b) as [->|Hne]; simpl.
  - exact IH.
  - destruct (Ascii.eqb_spec c b); [done|]. exact IH.
Qed.

Lemma rewrite_label_sublist node label :
  PyStr.chars (rewrite_label node label) `sublist_of` PyStr.chars label.
Proof.
  unfold rewrite_label.
  repeat (etrans; [apply replace_sublist|]). done.
Qed.

(** ** Running the store computations *)

Lemma store_eta st :
  mkStore (handle_lists st) (label_lists st) (axes_objs st) = st.
Proof. by destruct st. Qed.

Lemma bind_ok {A B} (m : py A) (k : A → py B) st a st' :
  m st = Ok (a, st') → (m ≫= k) st = k a st'.
Proof. intros H. unfold mbind, py_bind. by rewrite H. Qed.

Lemma for_each_append (f : string → string) items : ∀ acc st l,
  label_lists st !! l = Some acc →
  for_each items (fun label => PyList.append l (f label)) st
  = Ok (tt, mkStore (handle_lists st)
                    (<[l := acc ++ (f <$> items)]> (label_lists st))
                    (axes_objs st)).
Proof.
  induction items as [|x items IH]; intros acc st l Hl; simpl.
  - rewrite app_nil_r, insert_id by done. by rewrite store_eta.
  - erewrite bind_ok; last first.
    { unfold PyList.append. rewrite Hl. reflexivity. }
    rewrite (IH (acc ++ [f x])); simpl.
    + by rewrite insert_insert_eq, <- app_assoc.
    + apply lookup_insert_eq.
Qed.

Lemma fresh_label_addr st l (ls : list string) :
  label_lists st !! l = Some ls → fresh (dom (label_lists st)) ≠ l.
Proof.
  intros Hl Heq. apply (is_fresh (dom (label_lists st))).
  rewrite Heq. apply elem_of_dom. eauto.
Qed.

Lemma read_handles_run st l hs :
  handle_lists st !! l = Some hs → PyList.read_handles l st = Ok (hs, st).
Proof. intros H. unfold PyList.read_handles. by rewrite H. Qed.

Lemma read_labels_run st l ls :
  label_lists st !! l = Some ls → PyList.read_labels l st = Ok (ls, st).
Proof. intros H. unfold PyList.read_labels. by rewrite H. Qed.

Lemma reverse_handles_run st l hs :
  handle_lists st !! l = Some hs →
  PyList.reverse_handles l st
  = Ok (tt, mkStore (<[l := reverse hs]> (handle_lists st)) (label_lists st)
                    (axes_objs st)).
Proof. intros H. unfold PyList.reverse_handles. by rewrite H. Qed.

Lemma reverse_labels_run st l ls :
  label_lists st !! l = Some ls →
  PyList.reverse_labels l st
  = Ok (tt, mkStore (handle_lists st) (<[l := reverse ls]> (label_lists st))
                    (axes_objs st)).
Proof. intros H. unfold PyList.reverse_labels. by rewrite H. Qed.

Lemma get_position_run st a ax :
  axes_objs st !! a = Some ax → PyAxes.get_position a st = Ok (position ax, st).
Proof. intros H. unfold PyAxes.get_position. by rewrite H. Qed.

Lemma set_position_run st a ax b :
  axes_objs st !! a = Some ax →
  PyAxes.set_position a b st
  = Ok (tt, mkStore (handle_lists st) (label_lists st)
                    (<[a := mkAxes b (legend_ ax)]> (axes_objs st))).
Proof. intros H. unfold PyAxes.set_position. by rewrite H. Qed.

Lemma contents_handles_run st oh hs :
  refers (handle_lists st) oh hs →
  PyAxes.contents PyList.read_handles oh st = Ok (hs, st).
Proof.
  intros [|l xs Hl]; simpl; [done|].
  by rewrite (bind_ok _ _ _ _ _ (read_handles_run _ _ _ Hl)).
Qed.

Lemma contents_labels_run st ol ls :
  refers (label_lists st) ol ls →
  PyAxes.contents PyList.read_labels ol st = Ok (ls, st).
Proof.
  intros [|l xs Hl]; simpl; [done|].
  by rewrite (bind_ok _ _ _ _ _ (read_labels_run _ _ _ Hl)).
Qed.

Lemma legend_run st a ax bbox loc ncol oh ol hs ls :
  axes_objs st !! a = Some ax →
  refers (handle_lists st) oh hs →
  refers (label_lists st) ol ls →
  PyAxes.legend a bbox loc ncol oh ol st
  = Ok (tt, mkStore (handle_lists st) (label_lists st)
                    (<[a := mkAxes (position ax)
                                   (Some (mkLegendCall bbox loc ncol hs ls))]>
                       (axes_objs st))).
Proof.
  intros Ha Hh%contents_handles_run Hl%contents_labels_run. unfold PyAxes.legend.
  rewrite (bind_ok _ _ _ _ _ Hh), (bind_ok _ _ _ _ _ Hl).
  unfold PyAxes.install_legend. by rewrite Ha.
Qed.

(** The part both copies share: from the new list to the end of the loop. *)
Lemma rewrite_loop_run node st ll ls (k : addr → unit → py addr) :
  label_lists st !! ll = Some ls →
  let ln := fresh (dom (label_lists st)) in
  (PyList.new_labels ≫= λ new_labels,
     PyList.read_labels ll ≫= λ items,
       for_each items (fun label =>
         PyList.append new_labels (rewrite_label node label)) ≫= k new_labels) st
  = k ln tt (mkStore (handle_lists st)
                     (<[ln := rewrite_label node <$> ls]> (label_lists st))
                     (axes_objs st)).
Proof.
  intros Hls ln. pose proof (fresh_label_addr _ _ _ Hls) as Hfresh.
  erewrite bind_ok; last reflexivity.
  erewrite bind_ok; last first.
  { apply read_labels_run. simpl. by rewrite lookup_insert_ne. }
  erewrite bind_ok; last first.
  { apply (for_each_append _ _ []). simpl. apply lookup_insert_eq. }
  simpl. by rewrite insert_insert_eq.
Qed.

(** The part both copies share: the layout, from [get_position] on. *)
Lemma layout_run st la ax plotshare bbox loc ncol oh ol hs ls :
  axes_objs st !! la = Some ax →
  refers (handle_lists st) oh hs →
  refers (label_lists st) ol ls →
  (PyAxes.get_position la ≫= λ box,
     PyAxes.set_position la
       (mkBbox (x0 box) (y0 box) (width box * plotshare)%Q (height box)) ≫= λ _,
       PyAxes.legend la bbox loc ncol oh ol ≫= λ _, mret la) st
  = Ok (la, mkStore (handle_lists st) (label_lists st)
                    (<[la := mkAxes (shrunk (position ax) plotshare)
                                    (Some (mkLegendCall bbox loc ncol hs ls))]>
                       (axes_objs st))).
Proof.
  intros Hax Hh Hl.
  erewrite bind_ok; last by apply get_position_run.
  erewrite bind_ok; last by eapply set_position_run.
  erewrite bind_ok; last first.
  { eapply legend_run; simpl; [apply lookup_insert_eq | exact Hh | exact Hl]. }
  simpl. unfold mret, py_ret. by rewrite insert_insert_eq.
Qed.

(** What a call of the [variable_chp.py] copy does. *)
Lemma variable_chp_run node rv kw st lh ll la hs ls ax :
  call_in kw st lh ll la hs ls ax →
  let rev := default VariableChp.reverse_default rv in
  VariableChp.shape_legend node rv kw st
  = Ok (la, store_after node rev kw st lh la hs ls ax
              (Some (if rev then reverse hs else hs))
              (Some (if rev then reverse (rewrite_label node <$> ls)
                     else rewrite_label node <$> ls))).
Proof.
  intros (Hh & Hl & Ha & Hhs & Hls & Hax) rev.
  unfold VariableChp.shape_legend.
  rewrite Hh, Hl, Ha. cbn [getitem].
  do 3 (erewrite bind_ok; last reflexivity).
  rewrite (rewrite_loop_run _ _ _ _ _ Hls).
  fold rev. unfold store_after, get. destruct rev.
  - erewrite bind_ok; last first.
    { erewrite bind_ok; last by apply reverse_handles_run.
      apply reverse_labels_run. simpl. apply lookup_insert_eq. }
    erewrite layout_run; simpl; eauto.
    + by rewrite insert_insert_eq.
    + constructor. apply lookup_insert_eq.
    + constructor. apply lookup_insert_eq.
  - erewrite bind_ok; last reflexivity.
    erewrite layout_run; simpl; eauto.
    + by rewrite (insert_id _ _ _ Hhs).
    + by constructor.
    + constructor. apply lookup_insert_eq.
Qed.

(** What a call of the [storage_investment_plot.py] copy does: with
    [reverse] set, both lists are reversed in place and the names are
    rebound to the [None] that [reverse()] returns. *)
Lemma storage_investment_plot_run node rv kw st lh ll la hs ls ax :
  call_in kw st lh ll la hs ls ax →
  let rev := default StorageInvestmentPlot.reverse_default rv in
  StorageInvestmentPlot.shape_legend node rv kw st
  = Ok (la, store_after node rev kw st lh la hs ls ax
              (if rev then None else Some hs)
              (if rev then None else Some (rewrite_label node <$> ls))).
Proof.
  intros (Hh & Hl & Ha & Hhs & Hls & Hax) rev.
  unfold StorageInvestmentPlot.shape_legend.
  rewrite Hh, Hl, Ha. cbn [getitem].
  do 3 (erewrite bind_ok; last reflexivity).
  rewrite (rewrite_loop_run _ _ _ _ _ Hls).
  fold rev. unfold store_after, get. destruct rev.
  - erewrite bind_ok; last first.
    { erewrite bind_ok; last by apply reverse_handles_run.
      erewrite bind_ok; last first.
      { apply reverse_labels_run. simpl. apply lookup_insert_eq. }
      reflexivity. }
    cbn beta iota.
    erewrite layout_run; simpl; eauto.
    + by rewrite insert_insert_eq.
    + constructor.
    + constructor.
  - erewrite bind_ok; last reflexivity.
    cbn beta iota.
    erewrite layout_run; simpl; eauto.
    + by rewrite (insert_id _ _ _ Hhs).
    + by constructor.
    + constructor. apply lookup_insert_eq.
Qed.

(** After a call the arguments are still in place, for the next call. *)
Lemma call_in_after node rev kw st lh ll la hs ls ax arg_hs arg_ls :
  call_in kw st lh ll la hs ls ax →
  call_in kw (store_after node rev kw st lh la hs ls ax arg_hs arg_ls)
    lh ll la (if rev then reverse hs else hs) ls
    (mkAxes (shrunk (position ax) (get (kw_plotshare kw) 0.9%Q))
            (Some (mkLegendCall (get (kw_bbox_to_anchor kw) (1%Q, 0.5%Q))
                                (get (kw_loc kw) "center left")
                                (get (kw_ncol kw) 1%Z) arg_hs arg_ls))).
Proof.
  intros (Hh & Hl & Ha & Hhs & Hls & Hax).
  pose proof (fresh_label_addr _ _ _ Hls) as Hfresh.
  repeat split; try done; unfold store_after; simpl.
  - apply lookup_insert_eq.
  - by rewrite lookup_insert_ne.
  - apply lookup_insert_eq.
Qed.

(** ** The legend labels *)

(** C3, as stated: on the label with quote characters the rewriting does not
    give "demand"; the quotes stay. *)
Lemma rewrite_label_quoted_label_keeps_quotes :
  rewrite_label "electricity" "(('electricity', 'demand'), flow)"
  = "'''demand'"%string
  ∧ rewrite_label "electricity" "(('electricity', 'demand'), flow)"
    ≠ "demand"%string.
Proof. split; [reflexivity | discriminate]. Qed.

(** C3, amended: on the label as pandas prints the column tuple, without
    quote characters, the rewriting with bus "electricity" gives exactly
    "demand"; with quote characters around the two names they stay in the
    result.  In general it is five deletions in a row: every "(", every
    occurrence of the marker "), flow)", every occurrence of the bus label,
    every comma and every space; the result is the label with characters
    taken out and nothing added. *)
Theorem rewrite_label_unquoted_demand :
  rewrite_label "electricity" "((electricity, demand), flow)" = "demand"%string
  ∧ rewrite_label "electricity" "(('electricity', 'demand'), flow)"
    = "'''demand'"%string
  ∧ ∀ node label,
      let s1 := PyStr.replace label "(" "" in
      let s2 := PyStr.replace s1 "), flow)" "" in
      let s3 := PyStr.replace s2 node "" in
      let s4 := PyStr.replace s3 "," "" in
      rewrite_label node label = PyStr.replace s4 " " ""
      ∧ PyStr.occurs "("%char s1 = false
      ∧ PyStr.chars s2 `sublist_of` PyStr.chars s1
      ∧ PyStr.chars s3 `sublist_of` PyStr.chars s2
      ∧ PyStr.occurs ","%char s4 = false
      ∧ PyStr.occurs " "%char (rewrite_label node label) = false
      ∧ PyStr.chars (rewrite_label node label) `sublist_of` PyStr.chars label.
Proof.
  split; [reflexivity|]. split; [reflexivity|]. intros node label s1 s2 s3 s4.
  split; [reflexivity|]. split; [apply replace_char_gone|].
  split; [apply replace_sublist|]. split; [apply replace_sublist|].
  split; [apply replace_char_gone|]. split; [apply replace_char_gone|].
  apply rewrite_label_sublist.
Qed.

(** C9: whatever the label and the bus label, the rewritten label has no
    "(", no "," and no space, and it is the label with characters deleted;
    a ")" outside the marker "), flow)" can stay. *)
Theorem rewrite_label_no_open_paren_comma_space :
  (∀ node label,
     PyStr.occurs "("%char (rewrite_label node label) = false
     ∧ PyStr.occurs ","%char (rewrite_label node label) = false
     ∧ PyStr.occurs " "%char (rewrite_label node label) = false
     ∧ PyStr.chars (rewrite_label node label) `sublist_of` PyStr.chars label)
  ∧ rewrite_label "electricity" "((electricity, demand), invest)"
    = "demand)invest)"%string
  ∧ PyStr.occurs ")"%char (rewrite_label "electricity" "((electricity, demand), invest)")
    = true.
Proof.
  split; [|split; reflexivity].
  intros node label. unfold rewrite_label.
  set (s1 := PyStr.replace label "(" "").
  set (s2 := PyStr.replace s1 "), flow)" "").
  set (s3 := PyStr.replace s2 node "").
  set (s4 := PyStr.replace s3 "," "").
  repeat split.
  - apply (occurs_sublist _ _ s1); [|apply replace_char_gone].
    do 3 (etrans; [apply replace_sublist|]). apply replace_sublist.
  - apply (occurs_sublist _ _ s4); [apply replace_sublist|].
    apply replace_char_gone.
  - apply replace_char_gone.
  - apply rewrite_label_sublist.
Qed.

(** ** Reversal *)

(** In the [variable_chp.py] copy the legend receives the reversed handles
    and the reversed rewritten labels when [reverse] is set. *)
Lemma variable_chp_legend_reversed node kw st lh ll la hs ls ax :
  call_in kw st lh ll la hs ls ax →
  ∃ ax' call,
    axes_after (VariableChp.shape_legend node (Some true) kw st) = Some ax'
    ∧ legend_ ax' = Some call
    ∧ lg_handles call = Some (reverse hs)
    ∧ lg_labels call = Some (reverse (rewrite_label node <$> ls)).
Proof.
  intros Hin. rewrite (variable_chp_run _ _ _ _ _ _ _ _ _ _ Hin). simpl.
  rewrite lookup_insert_eq. eexists _, _. split; [reflexivity|]. done.
Qed.

(** In the [storage_investment_plot.py] copy the legend receives [None]
    twice when [reverse] is set, whatever the lists are. *)
Lemma storage_investment_plot_legend_none node kw st lh ll la hs ls ax :
  call_in kw st lh ll la hs ls ax →
  ∃ ax' call,
    axes_after (StorageInvestmentPlot.shape_legend node (Some true) kw st)
    = Some ax'
    ∧ legend_ ax' = Some call
    ∧ lg_handles call = None
    ∧ lg_labels call = None.
Proof.
  intros Hin. rewrite (storage_investment_plot_run _ _ _ _ _ _ _ _ _ _ Hin).
  simpl. rewrite lookup_insert_eq. eexists _, _. split; [reflexivity|]. done.
Qed.

(** C4, at the failing input: in the [storage_investment_plot.py] copy with
    [reverse=True] the legend receives [None] for the handles and [None] for
    the labels; both lists have been reversed in place and the results of
    [reverse()] were assigned to the names. *)
Theorem storage_investment_plot_reverse_passes_none :
  let r := StorageInvestmentPlot.shape_legend "electricity" (Some true)
             (Sample.kwargs None) Sample.st in
  (legend_ <$> axes_after r)
  = Some (Some (mkLegendCall (1%Q, 0.5%Q) "center left" 1 None None))
  ∧ (st' ← store_of r; handle_lists st' !! 1%positive) = Some [30; 20; 10]
  ∧ (lg_labels <$> (ax ← axes_after (VariableChp.shape_legend "electricity"
                                       (Some true) (Sample.kwargs None) Sample.st);
                    legend_ ax))
    = Some (Some ["demand"; "wind"; "pv"]%string).
Proof. vm_compute. done. Qed.

(** ** The width of the axes *)

(** C6: one call sets the position of the axes to
    [x0, y0, width * plotshare, height], with [plotshare] 0.9 unless given:
    the width is multiplied and the three other fields are kept.  This holds
    for both copies of the function. *)
Theorem shape_legend_shrinks_width node rv kw st lh ll la hs ls ax :
  call_in kw st lh ll la hs ls ax →
  let plotshare := default 0.9%Q (kw_plotshare kw) in
  let box := position ax in
  let box' := mkBbox (x0 box) (y0 box) (width box * plotshare)%Q (height box) in
  (position <$> axes_after (StorageInvestmentPlot.shape_legend node rv kw st))
  = Some box'
  ∧ (position <$> axes_after (VariableChp.shape_legend node rv kw st))
    = Some box'.
Proof.
  intros Hin plotshare box box'.
  rewrite (storage_investment_plot_run _ _ _ _ _ _ _ _ _ _ Hin),
          (variable_chp_run _ _ _ _ _ _ _ _ _ _ Hin).
  simpl. by rewrite !lookup_insert_eq.
Qed.

Lemma shape_legend_shrinks_width_witness :
  (position <$> axes_after (StorageInvestmentPlot.shape_legend "electricity" None
                              (Sample.kwargs None) Sample.st))
  = Some (mkBbox 0.125 0.11 (0.775 * 0.9) 0.77)
  ∧ (position <$> axes_after (VariableChp.shape_legend "electricity" None
                                (Sample.kwargs None) Sample.st))
    = Some (mkBbox 0.125 0.11 (0.775 * 0.9) 0.77).
Proof.
  apply (shape_legend_shrinks_width "electricity" None (Sample.kwargs None)
           Sample.st 1%positive 2%positive 3%positive
           Sample.handles Sample.labels Sample.axes).
  repeat split; reflexivity.
Defined.

(** ** Two layouts in a row *)

Module FloatAxesProofs.
Import PrimFloat FloatAxes.
#[local] Set Warnings "-inexact-float".
#[local] Open Scope float_scope.



End FloatAxesProofs.

(** ** Aliasing *)

(** C10: in the [variable_chp.py] copy with [reverse] true, which is its
    default, the list object the caller passed as handles is reversed in
    place, so the caller finds its own list reversed after the call; the
    labels that are reversed are those of a list built during the call, at
    an address that was not in use before, and the list the caller passed
    as labels is as it was. *)
Theorem variable_chp_reverses_handles_in_place node rv kw st lh ll la hs ls ax :
  call_in kw st lh ll la hs ls ax →
  default VariableChp.reverse_default rv = true →
  ∃ st' ln ax' call,
    VariableChp.shape_legend node rv kw st = Ok (la, st')
    ∧ handle_lists st' !! lh = Some (reverse hs)
    ∧ label_lists st' !! ll = Some ls
    ∧ label_lists st !! ln = None
    ∧ label_lists st' !! ln = Some (reverse (rewrite_label node <$> ls))
    ∧ axes_objs st' !! la = Some ax'
    ∧ legend_ ax' = Some call
    ∧ lg_handles call = Some (reverse hs)
    ∧ lg_labels call = Some (reverse (rewrite_label node <$> ls)).
Proof.
  intros Hin Hrev.
  pose proof (variable_chp_run node rv _ _ _ _ _ _ _ _ Hin) as Hrun.
  cbv zeta in Hrun. rewrite Hrev in Hrun.
  destruct Hin as (Hh & Hl & Ha & Hhs & Hls & Hax).
  pose proof (fresh_label_addr _ _ _ Hls) as Hfresh.
  eexists _, (fresh (dom (label_lists st))), _, _.
  split; [exact Hrun|]. unfold store_after; simpl.
  split; [apply lookup_insert_eq|].
  split; [by rewrite lookup_insert_ne|].
  split; [apply not_elem_of_dom, is_fresh|].
  split; [apply lookup_insert_eq|].
  split; [apply lookup_insert_eq|].
  done.
Qed.

Lemma variable_chp_reverses_handles_in_place_witness :
  ∃ st' ln ax' call,
    VariableChp.shape_legend "electricity" None (Sample.kwargs None) Sample.st
    = Ok (3%positive, st')
    ∧ handle_lists st' !! 1%positive = Some (reverse Sample.handles)
    ∧ label_lists st' !! 2%positive = Some Sample.labels
    ∧ label_lists Sample.st !! ln = None
    ∧ label_lists st' !! ln
      = Some (reverse (rewrite_label "electricity" <$> Sample.labels))
    ∧ axes_objs st' !! 3%positive = Some ax'
    ∧ legend_ ax' = Some call
    ∧ lg_handles call = Some (reverse Sample.handles)
    ∧ lg_labels call
      = Some (reverse (rewrite_label "electricity" <$> Sample.labels)).
Proof.
  apply (variable_chp_reverses_handles_in_place "electricity" None
           (Sample.kwargs None) Sample.st 1%positive 2%positive 3%positive
           Sample.handles Sample.labels Sample.axes).
  - repeat split; reflexivity.
  - reflexivity.
Defined.

(** ** Ticks *)

Section TickProofs.

Context {Timestamp : Type} (strftime : Timestamp → string → string).

Local Open Scope Z_scope.

Lemma seq_strongly_sorted (a n : nat) : StronglySorted lt (seq a n).
Proof.
  revert a. induction n as [|n IH]; intros a; simpl; constructor.
  - apply IH.
  - apply Forall_forall. intros x Hx%elem_of_seq. lia.
Qed.

Lemma seqZ_strongly_sorted m len : StronglySorted Z.lt (seqZ m len).
Proof.
  unfold seqZ. eapply StronglySorted_fmap; [|apply seq_strongly_sorted].
  intros x y Hxy. simpl. lia.
Qed.

(** The positions of a range that counts up from 0. *)
Lemma range_up_from_0 stop step :
  0 < step →
  ∃ positions,
    PySeq.range 0 stop step = Ok positions
    ∧ StronglySorted Z.lt positions
    ∧ Forall (fun p => 0 ≤ p ≤ stop - 1) positions
    ∧ (0 < stop → positions ≠ []).
Proof.
  intros Hstep. unfold PySeq.range, PySeq.range_length.
  destruct (Z.eqb_spec step 0) as [|_]; [lia|].
  destruct (Z.ltb_spec 0 step) as [_|]; [|lia].
  eexists. split; [reflexivity|]. split; [|split].
  - eapply StronglySorted_fmap; [|apply seqZ_strongly_sorted].
    intros x y Hxy. simpl. nia.
  - apply Forall_fmap, Forall_seqZ. intros i Hi. simpl.
    destruct (Z.ltb_spec 0 stop) as [Hstop|]; [|lia].
    assert (i ≤ (stop - 0 - 1) / step) as Hle by lia.
    assert (step * ((stop - 0 - 1) / step) ≤ stop - 0 - 1)
      by (apply Z.mul_div_le; lia).
    nia.
  - intros Hstop. destruct (Z.ltb_spec 0 stop) as [_|]; [|lia].
    assert (0 ≤ (stop - 0 - 1) / step) by (apply Z.div_pos; lia).
    rewrite seqZ_cons by lia. done.
Qed.

(** Reading a list at positions that are all in range. *)
Lemma omap_lookup_in_range {A} (l : list A) (positions : list Z) :
  Forall (fun p => 0 ≤ p ≤ Z.of_nat (length l) - 1) positions →
  Forall2 (fun p x => l !! Z.to_nat p = Some x) positions
          (omap (fun i => l !! Z.to_nat i) positions).
Proof.
  induction 1 as [|p positions Hp _ IH]; simpl; [constructor|].
  destruct (lookup_lt_is_Some_2 l (Z.to_nat p)) as [x Hx]; [lia|].
  rewrite Hx. by constructor.
Qed.

(** C5: for a non-empty index and a positive tick distance, the positions
    handed to [set_xticks] are strictly increasing and lie within
    [0, len(dates) - 1], and the labels handed to [set_xticklabels] are, one
    for one, the timestamps at those positions formatted with the date
    format.  When the distance is the one the script computes, these are
    the calls of the script. *)
Theorem set_ticks_increasing_in_bounds (dates : list Timestamp) (distance : Z) :
  dates ≠ [] →
  0 < distance →
  ∃ positions labels,
    set_ticks strftime dates distance = Ok (mkTickCalls positions labels)
    ∧ (distance = tick_distance dates →
       plot_ticks strftime dates = Ok (mkTickCalls positions labels))
    ∧ positions ≠ []
    ∧ StronglySorted Z.lt positions
    ∧ Forall (fun p => 0 ≤ p ≤ Z.of_nat (length dates) - 1) positions
    ∧ Forall2 (fun p label =>
                 ∃ item, dates !! Z.to_nat p = Some item
                         ∧ label = strftime item "%d-%m-%Y")
              positions labels.
Proof.
  intros Hne Hstep.
  destruct (range_up_from_0 (Z.of_nat (length dates)) _ Hstep)
    as (positions & Hrange & Hsorted & Hbounds & Hnonempty).
  exists positions,
    ((fun item => strftime item "%d-%m-%Y")
       <$> omap (fun i => dates !! Z.to_nat i) positions).
  assert (set_ticks strftime dates distance
          = Ok (mkTickCalls positions
                  ((fun item => strftime item "%d-%m-%Y")
                     <$> omap (fun i => dates !! Z.to_nat i) positions)))
    as Hcalls.
  { unfold set_ticks. rewrite Hrange. cbn.
    unfold PySeq.slice_from_0.
    destruct (Z.eqb_spec distance 0) as [|_]; [lia|].
    destruct (Z.ltb_spec 0 distance) as [_|]; [|lia].
    cbn. unfold PySeq.range in Hrange.
    destruct (Z.eqb_spec distance 0) as [|_]; [lia|].
    by injection Hrange as ->. }
  split; [exact Hcalls|].
  split; [intros Hd; unfold plot_ticks; by rewrite <- Hd|].
  split; [|split; [done|split; [done|]]].
  - apply Hnonempty. destruct dates; [done|]. simpl. lia.
  - apply Forall2_fmap_r.
    eapply Forall2_impl; [by apply omap_lookup_in_range|].
    intros p x Hx. simpl in *. eauto.
Qed.

Lemma int_div_7 (n : nat) :
  PySeq.int (inject_Z (Z.of_nat n) / 7) = Z.of_nat n / 7.
Proof.
  unfold PySeq.int. simpl. rewrite Z.mul_1_r.
  apply Z.quot_div_nonneg; lia.
Qed.

(** The script itself: its tick distance is positive from 14 timestamps on,
    it is 0 for 7 to 13 of them, where [range] raises, and negative below. *)
Lemma plot_ticks_cases (dates : list Timestamp) :
  tick_distance dates = Z.of_nat (length dates) / 7 - 1
  ∧ (0 < tick_distance dates ↔ (14 ≤ length dates)%nat)
  ∧ ((7 ≤ length dates < 14)%nat →
     plot_ticks strftime dates
     = Err (ValueError "range() arg 3 must not be zero")).
Proof.
  assert (tick_distance dates = Z.of_nat (length dates) / 7 - 1) as Hd
    by (unfold tick_distance; by rewrite int_div_7).
  split; [done|]. split.
  - rewrite Hd. split; intros H.
    + assert (Z.of_nat (length dates) / 7 < 2 ∨ 14 ≤ Z.of_nat (length dates))
        as [|] by (destruct (Z.lt_ge_cases (Z.of_nat (length dates)) 14);
                   [left; apply Z.div_lt_upper_bound; lia | right; lia]); lia.
    + assert (2 ≤ Z.of_nat (length dates) / 7)
        by (apply Z.div_le_lower_bound; lia). lia.
  - intros [Hlo Hhi]. unfold plot_ticks, set_ticks. rewrite Hd.
    assert (Z.of_nat (length dates) / 7 = 1) as ->.
    { symmetry. apply (Z.div_unique _ 7 1 (Z.of_nat (length dates) - 7)); lia. }
    reflexivity.
Qed.

End TickProofs.

Lemma set_ticks_increasing_in_bounds_witness :
  let strftime := fun (hour : nat) (fmt : string) =>
                    (fmt +:+ "@" +:+ pretty hour)%string in
  ∃ positions labels,
    set_ticks strftime (seq 0 240) 33 = Ok (mkTickCalls positions labels)
    ∧ (33%Z = tick_distance (seq 0 240) →
       plot_ticks strftime (seq 0 240) = Ok (mkTickCalls positions labels))
    ∧ positions ≠ []
    ∧ StronglySorted Z.lt positions
    ∧ Forall (fun p => (0 ≤ p ≤ Z.of_nat (length (seq 0 240)) - 1)%Z) positions
    ∧ Forall2 (fun p label =>
                 ∃ item, seq 0 240 !! Z.to_nat p = Some item
                         ∧ label = strftime item "%d-%m-%Y")
              positions labels.
Proof.
  apply (set_ticks_increasing_in_bounds
           (fun (hour : nat) (fmt : string) => (fmt +:+ "@" +:+ pretty hour)%string)
           (seq 0 240) 33%Z).
  - discriminate.
  - reflexivity.
Defined.

(** ** The compositor of the specification *)

Module BusBalanceProofs.

Import BusBalance.

Local Open Scope Z_scope.

(** *** Partitioning *)

Lemma existsb_elem_of {A} (f : A → bool) (l : list A) :
  existsb f l = true ↔ ∃ x, x ∈ l ∧ f x = true.
Proof.
  rewrite existsb_exists. split; intros (x & Hx & Hf); exists x; split;
    try done; by apply list_elem_of_In.
Qed.

Lemma references_spec bus k :
  references bus k = true ↔ source k = bus ∨ target k = bus.
Proof.
  unfold references. rewrite orb_true_iff, !bool_decide_eq_true. done.
Qed.

Lemma self_loop_spec bus k :
  self_loop bus k = true ↔ source k = bus ∧ target k = bus.
Proof.
  unfold self_loop. rewrite andb_true_iff, !bool_decide_eq_true. done.
Qed.

(** C1, as stated: a table in which a key references the bus, and
    [partition] returns no view; the key bus -> bus is refused. *)
Lemma partition_self_loop_refused :
  let T := mkFlowTable [0; 1]
             [mkFlowSeries ("wind", "bus") [1; 2]%Q;
              mkFlowSeries ("bus", "bus") [3; 4]%Q] [] in
  (∃ k, k ∈ key <$> flows T ∧ references "bus" k = true)
  ∧ partition T "bus" = Err SelfLoopError
  ∧ ¬ ∃ view, partition T "bus" = Ok view.
Proof.
  split; [|split].
  - exists ("wind", "bus")%string. split; [|reflexivity].
    apply list_elem_of_here.
  - reflexivity.
  - intros [view Hview]. discriminate Hview.
Qed.

(** C1, amended: for every table and bus label such that a key of the
    table references the bus: if no key has the bus as source and as target,
    [partition] returns a view; its inflows are the keys whose target is the
    bus and its outflows those whose source is the bus, each in the order of
    the table; no key is in both and a key is in one of them exactly when it
    is a key of the table that references the bus.  If some key has the bus
    as source and as target, [partition] fails with [SelfLoopError]. *)
Theorem partition_complete_disjoint (T : FlowTable) (bus : NodeLabel) :
  (∃ k, k ∈ key <$> flows T ∧ references bus k = true) →
  ((∀ k, k ∈ key <$> flows T → self_loop bus k = false) →
   ∃ view,
     partition T bus = Ok view
     ∧ inflows view = filter (fun k => target k = bus) (key <$> flows T)
     ∧ outflows view = filter (fun k => source k = bus) (key <$> flows T)
     ∧ (∀ k, ¬ (k ∈ inflows view ∧ k ∈ outflows view))
     ∧ (∀ k, k ∈ inflows view ∨ k ∈ outflows view
             ↔ k ∈ key <$> flows T ∧ references bus k = true))
  ∧ ((∃ k, k ∈ key <$> flows T ∧ self_loop bus k = true) →
     partition T bus = Err SelfLoopError).
Proof.
  intros Hsome. unfold partition.
  destruct (existsb (references bus) (key <$> flows T)) eqn:Hrefs; simpl.
  2: { apply existsb_elem_of in Hsome. congruence. }
  split.
  - intros Hnoloop.
    destruct (existsb (self_loop bus) (key <$> flows T)) eqn:Hloop.
    { apply existsb_elem_of in Hloop as (k & Hk & Hself).
      rewrite (Hnoloop k Hk) in Hself. discriminate. }
    eexists. split; [reflexivity|]. simpl. split; [done|]. split; [done|]. split.
    + intros k [[Ht Hk]%list_elem_of_filter [Hs _]%list_elem_of_filter].
      specialize (Hnoloop k Hk).
      assert (self_loop bus k = true) by (by apply self_loop_spec). congruence.
    + intros k. rewrite !list_elem_of_filter, references_spec. tauto.
  - intros Hloop%existsb_elem_of. by rewrite Hloop.
Qed.

Lemma partition_complete_disjoint_witness :
  let T := mkFlowTable [0; 1; 2]
             [mkFlowSeries ("A", "bus") [1; 2; 3]%Q;
              mkFlowSeries ("B", "bus") [4; 5; 6]%Q;
              mkFlowSeries ("bus", "C") [2; 2; 2]%Q] [] in
  ((∀ k, k ∈ key <$> flows T → self_loop "bus" k = false) →
   ∃ view,
     partition T "bus" = Ok view
     ∧ inflows view = filter (fun k => target k = "bus"%string) (key <$> flows T)
     ∧ outflows view = filter (fun k => source k = "bus"%string) (key <$> flows T)
     ∧ (∀ k, ¬ (k ∈ inflows view ∧ k ∈ outflows view))
     ∧ (∀ k, k ∈ inflows view ∨ k ∈ outflows view
             ↔ k ∈ key <$> flows T ∧ references "bus" k = true))
  ∧ ((∃ k, k ∈ key <$> flows T ∧ self_loop "bus" k = true) →
     partition T "bus" = Err SelfLoopError).
Proof.
  apply (partition_complete_disjoint
           (mkFlowTable [0; 1; 2]
              [mkFlowSeries ("A", "bus") [1; 2; 3]%Q;
               mkFlowSeries ("B", "bus") [4; 5; 6]%Q;
               mkFlowSeries ("bus", "C") [2; 2; 2]%Q] []) "bus").
  exists ("A", "bus")%string. split; [apply list_elem_of_here | reflexivity].
Defined.

(** The scenario of the specification. *)
Example partition_scenario :
  partition (mkFlowTable [0; 1; 2]
               [mkFlowSeries ("A", "bus") [1; 2; 3]%Q;
                mkFlowSeries ("B", "bus") [4; 5; 6]%Q;
                mkFlowSeries ("bus", "C") [2; 2; 2]%Q] []) "bus"
  = Ok (mkBalanceView [("A", "bus"); ("B", "bus")] [("bus", "C")])%string.
Proof. reflexivity. Qed.

(** *** Slicing *)

Lemma within_spec lo hi t : within lo hi t = true ↔ lo ≤ t ≤ hi.
Proof. unfold within. rewrite andb_true_iff, !Z.leb_le. done. Qed.

Lemma filter_nil_iff {A} (P : A → Prop) `{!∀ x, Decision (P x)} (l : list A) :
  filter P l = [] ↔ ∀ x, x ∈ l → ¬ P x.
Proof.
  split.
  - intros Hnil x Hx HP. by apply (filter_nil_not_elem_of P l x).
  - intros Hall. induction l as [|x l IH]; [done|].
    rewrite filter_cons. destruct (decide (P x)) as [HP|_].
    + exfalso. apply (Hall x); [apply list_elem_of_here | done].
    + apply IH. intros y Hy. apply Hall. by apply list_elem_of_further.
Qed.

(** The clipped window lies within the first and the last timestamp. *)
Lemma clip_bounds idx window lo hi first :
  clip idx window = Some (lo, hi) →
  lo = Z.max (w_start window) (List.hd first idx)
  ∧ hi = Z.min (default (List.last idx first) (w_end window)) (List.last idx first).
Proof.
  destruct idx as [|t idx]; simpl; [done|]. intros [= <- <-]. split; [done|].
  assert (List.last (t :: idx) t = List.last (t :: idx) first) as Hlast.
  { generalize t at 1 3. induction idx as [|u idx IH]; intros v; [done|].
    destruct idx; [done|]. apply (IH u). }
  simpl in Hlast. by rewrite Hlast.
Qed.

(** C8: [slice] fails with [EmptyWindowError] exactly when no timestamp of
    the index lies in the clipped window, and it fails in no other way; a
    table it returns has a non-empty index.  In particular a window that
    starts after the last sample of the table raises [EmptyWindowError]. *)
Theorem slice_empty_window (T : FlowTable) (window : TimeWindow) :
  (slice T window = Err EmptyWindowError
   ↔ ∀ lo hi, clip (index T) window = Some (lo, hi) →
       ∀ t, t ∈ index T → ¬ (lo ≤ t ≤ hi))
  ∧ (∀ e, slice T window = Err e → e = EmptyWindowError)
  ∧ (∀ T', slice T window = Ok T' → index T' ≠ [])
  ∧ (∀ first, List.last (index T) first < w_start window →
       slice T window = Err EmptyWindowError).
Proof.
  assert (slice T window = Err EmptyWindowError
          ↔ ∀ lo hi, clip (index T) window = Some (lo, hi) →
              ∀ t, t ∈ index T → ¬ (lo ≤ t ≤ hi)) as Hiff.
  { unfold slice. destruct (clip (index T) window) as [[lo hi]|] eqn:Hclip.
    - destruct (filter _ (index T)) as [|t kept] eqn:Hkept.
      + split; [|done]. intros _ lo' hi' [= <- <-] t Ht Hin.
        eapply (filter_nil_not_elem_of _ _ t Hkept); [|done].
        by apply within_spec.
      + split; [done|]. intros Hnone. exfalso.
        assert (t ∈ filter (fun t => within lo hi t = true) (index T)) as Ht
          by (rewrite Hkept; apply list_elem_of_here).
        apply list_elem_of_filter in Ht as [Hw Ht].
        apply (Hnone lo hi eq_refl t Ht). by apply within_spec.
    - split; [|done]. intros _ lo hi [=]. }
  split; [exact Hiff|]. split; [|split].
  - unfold slice. intros e.
    destruct (clip (index T) window) as [[lo hi]|]; [|congruence].
    destruct (filter _ (index T)); congruence.
  - unfold slice. intros T'.
    destruct (clip (index T) window) as [[lo hi]|]; [|done].
    destruct (filter _ (index T)) eqn:Hkept; [done|].
    by intros [= <-].
  - intros first Hlast. apply Hiff. intros lo hi Hclip t _ [Hlo Hhi].
    apply (clip_bounds _ _ _ _ first) in Hclip as [-> ->]. lia.
Qed.

(** The scenario of the specification: 720 samples, a window that starts
    after the last of them. *)
Lemma slice_empty_window_witness :
  let T := mkFlowTable (seqZ 0 720)
             [mkFlowSeries ("wind", "electricity")
                ((fun t => inject_Z t) <$> seqZ 0 720)] [] in
  slice T (mkTimeWindow 720 None) = Err EmptyWindowError.
Proof.
  apply (slice_empty_window
           (mkFlowTable (seqZ 0 720)
              [mkFlowSeries ("wind", "electricity")
                 ((fun t => inject_Z t) <$> seqZ 0 720)] [])
           (mkTimeWindow 720 None)) with (first := 0).
  vm_compute. reflexivity.
Defined.

End BusBalanceProofs.

(** *** Stacking *)

Module StackProofs.

Import BusBalance.

Lemma total_at_nil i : total_at i [] = 0%Q.
Proof. reflexivity. Qed.

Lemma total_at_cons i s series :
  total_at i (s :: series) = (default 0 (samples s !! i) + total_at i series)%Q.
Proof. reflexivity. Qed.

Lemma total_at_app i l1 l2 :
  (total_at i (l1 ++ l2) == total_at i l1 + total_at i l2)%Q.
Proof.
  induction l1 as [|s l1 IH]; simpl.
  - rewrite total_at_nil. ring.
  - rewrite !total_at_cons, IH. ring.
Qed.

(** The [k]-th entry of a stack over [base]: it is drawn from [base] plus
    the series before it, up to that plus its own values. *)
Lemma stack_lookup colors n : ∀ series base k s,
  length base = n →
  Forall (fun s => length (samples s) = n) series →
  series !! k = Some s →
  ∃ bl tp,
    stack colors base series !! k
    = Some (mkRenderedSeries (key s) (colors (key s)) (Area bl tp))
    ∧ ∀ i, i < n →
        ∃ b0 yb yt v,
          base !! i = Some b0 ∧ bl !! i = Some yb ∧ tp !! i = Some yt
          ∧ samples s !! i = Some v
          ∧ (yb == b0 + total_at i (take k series))%Q
          ∧ (yt == yb + v)%Q.
Proof.
  induction series as [|s0 series IH]; intros base k s Hbase Hlen Hk; [done|].
  apply Forall_cons in Hlen as [Hlen0 Hlen].
  destruct k as [|k]; simpl in *.
  - injection Hk as ->. eexists _, _. split; [reflexivity|].
    intros i Hi.
    destruct (lookup_lt_is_Some_2 base i) as [b0 Hb0]; [lia|].
    destruct (lookup_lt_is_Some_2 (samples s) i) as [v Hv]; [lia|].
    exists b0, b0, (b0 + v)%Q, v. repeat split; try done.
    + rewrite lookup_zip_with, Hb0, Hv. done.
    + rewrite total_at_nil. ring.
  - destruct (IH (zip_with Qplus base (samples s0)) k s) as (bl & tp & Hst & Hat);
      [rewrite length_zip_with; lia | done | done |].
    exists bl, tp. split; [exact Hst|]. intros i Hi.
    destruct (Hat i Hi) as (t0 & yb & yt & v & Ht0 & Hbl & Htp & Hv & Hyb & Hyt).
    destruct (lookup_lt_is_Some_2 base i) as [b0 Hb0]; [lia|].
    destruct (lookup_lt_is_Some_2 (samples s0) i) as [v0 Hv0]; [lia|].
    rewrite lookup_zip_with, Hb0, Hv0 in Ht0. simpl in Ht0. injection Ht0 as <-.
    exists b0, yb, yt, v. repeat split; try done.
    rewrite total_at_cons, Hv0. simpl. rewrite Hyb. ring.
Qed.

(** C2: under the STEP policy, for inflow series over one time index, the
    [k]-th stacked series is drawn at every timestamp from the sum of the
    series before it up to the sum of the series 0 to [k], and holds these
    values until the next timestamp; the top of the last one is the sum of
    all inflow values at that timestamp, well within 1e-9 of it. *)
Theorem stack_top_is_running_sum
    (ordered_in ordered_out : list FlowSeries) (colors : FlowKey → Color)
    (n k i : nat) (s : FlowSeries) (frac : Q) :
  Forall (fun s => length (samples s) = n) ordered_in →
  ordered_in !! k = Some s →
  i < n →
  let plan := compose ordered_in ordered_out colors STEP in
  ∃ r y_base y_top v,
    plan_series plan !! k = Some r
    ∧ r_key r = key s ∧ r_color r = colors (key s)
    ∧ samples s !! i = Some v
    ∧ rendered (plan_policy plan) (baseline_of r) i frac = Some y_base
    ∧ rendered (plan_policy plan) (top_of r) i frac = Some y_top
    ∧ (y_base == total_at i (take k ordered_in))%Q
    ∧ (y_top == y_base + v)%Q
    ∧ (y_top == total_at i (take (S k) ordered_in))%Q
    ∧ (S k = length ordered_in →
       (y_top == total_at i ordered_in)%Q
       ∧ (Qabs (y_top - total_at i ordered_in) <= 1 # 1000000000)%Q).
Proof.
  intros Hlen Hk Hi plan.
  destruct ordered_in as [|s0 rest]; [done|].
  set (series := s0 :: rest) in *.
  assert (length ((fun _ => 0%Q) <$> samples s0) = n) as Hzero.
  { rewrite length_fmap. by apply Forall_cons in Hlen as [? _]. }
  destruct (stack_lookup colors n series _ k s Hzero Hlen Hk)
    as (bl & tp & Hst & Hat).
  destruct (Hat i Hi) as (b0 & yb & yt & v & Hb0 & Hbl & Htp & Hv & Hyb & Hyt).
  assert (b0 = 0%Q) as ->.
  { apply list_lookup_fmap_Some in Hb0 as (? & ? & ?). done. }
  assert (yt == total_at i (take (S k) series))%Q as Htop.
  { rewrite (take_S_r _ _ _ Hk), total_at_app, total_at_cons, Hv, total_at_nil.
    simpl. rewrite Hyt, Hyb. ring. }
  exists (mkRenderedSeries (key s) (colors (key s)) (Area bl tp)), yb, yt, v.
  split.
  { unfold plan, compose. cbn [plan_series]. fold series.
    rewrite lookup_app_l; [exact Hst|].
    eapply lookup_lt_Some. exact Hst. }
  split; [done|]. split; [done|]. split; [done|].
  split; [exact Hbl|]. split; [exact Htp|].
  split; [rewrite Hyb; ring|]. split; [exact Hyt|]. split; [exact Htop|].
  intros Hlast.
  assert (yt == total_at i series)%Q as Hall.
  { rewrite Htop, Hlast, firstn_all. reflexivity. }
  split; [exact Hall|].
  assert (yt - total_at i series == 0)%Q as Hzero' by (rewrite Hall; ring).
  rewrite Hzero'. discriminate.
Qed.

(** The scenario of the specification: inflows A = [1, 2, 3] and
    B = [4, 5, 6]; the top of the stack at the second timestamp is 2 + 5. *)
Lemma stack_top_is_running_sum_witness :
  let A := mkFlowSeries ("A", "bus") [1; 2; 3]%Q in
  let B := mkFlowSeries ("B", "bus") [4; 5; 6]%Q in
  let C := mkFlowSeries ("bus", "C") [2; 2; 2]%Q in
  let plan := compose [A; B] [C] (fun _ => "grey"%string) STEP in
  ∃ r y_base y_top v,
    plan_series plan !! 1 = Some r
    ∧ r_key r = key B ∧ r_color r = "grey"%string
    ∧ samples B !! 1 = Some v
    ∧ rendered (plan_policy plan) (baseline_of r) 1 0 = Some y_base
    ∧ rendered (plan_policy plan) (top_of r) 1 0 = Some y_top
    ∧ (y_base == total_at 1 (take 1 [A; B]))%Q
    ∧ (y_top == y_base + v)%Q
    ∧ (y_top == total_at 1 (take 2 [A; B]))%Q
    ∧ (2 = length [A; B] →
       (y_top == total_at 1 [A; B])%Q
       ∧ (Qabs (y_top - total_at 1 [A; B]) <= 1 # 1000000000)%Q).
Proof.
  apply (stack_top_is_running_sum
           [mkFlowSeries ("A", "bus") [1; 2; 3]%Q;
            mkFlowSeries ("B", "bus") [4; 5; 6]%Q]
           [mkFlowSeries ("bus", "C") [2; 2; 2]%Q]
           (fun _ => "grey"%string) 3 1 1
           (mkFlowSeries ("B", "bus") [4; 5; 6]%Q) 0).
  - repeat constructor.
  - reflexivity.
  - lia.
Defined.

Example stack_scenario :
  top_of <$> plan_series
    (compose [mkFlowSeries ("A", "bus") [1; 2; 3]%Q;
              mkFlowSeries ("B", "bus") [4; 5; 6]%Q]
             [mkFlowSeries ("bus", "C") [2; 2; 2]%Q]
             (fun _ => "grey"%string) STEP) !! 1
  = Some [5; 7; 9]%Q.
Proof. reflexivity. Qed.

End StackProofs.

(** * Part IV: further properties of the scripts *)

(** ** More on [str.replace] *)

Lemma append_cons c s t : (String c s +:+ t)%string = String c (s +:+ t).
Proof. reflexivity. Qed.

Lemma append_nil_r s : (s +:+ "")%string = s.
Proof. induction s as [|c s IH]; [done|]. by rewrite append_cons, IH. Qed.

Lemma append_assoc s t u : ((s +:+ t) +:+ u)%string = (s +:+ t +:+ u)%string.
Proof. induction s as [|c s IH]; [done|]. by rewrite !append_cons, IH. Qed.

Lemma occurs_app c s t :
  PyStr.occurs c (s +:+ t) = PyStr.occurs c s || PyStr.occurs c t.
Proof.
  induction s as [|b s IH]; [done|]. rewrite append_cons. simpl.
  destruct (Ascii.eqb c b); [done | exact IH].
Qed.

Lemma startswith_occurs old s d :
  PyStr.startswith old s = true → PyStr.occurs d old = true →
  PyStr.occurs d s = true.
Proof.
  intros [rest ->]%startswith_spec Hd. rewrite occurs_app, Hd. done.
Qed.

Lemma contains_occurs old s d :
  PyStr.contains old s = true → PyStr.occurs d old = true →
  PyStr.occurs d s = true.
Proof.
  intros Hc Hd. induction s as [|b s IH]; simpl in *.
  - rewrite orb_false_r in Hc. by apply (startswith_occurs old _ d) in Hc.
  - apply orb_true_iff in Hc as [Hc|Hc].
    + by apply (startswith_occurs old _ d) in Hc.
    + destruct (Ascii.eqb d b); [done | by apply IH].
Qed.

(** Where [old] does not occur, nothing is replaced. *)
Lemma replace_absent a old s new :
  PyStr.contains (String a old) s = false →
  PyStr.replace s (String a old) new = s.
Proof.
  induction s as [|c s IH]; [done|]. intros Hc.
  cbn [PyStr.contains] in Hc. apply orb_false_iff in Hc as [Hpre Hc].
  rewrite replace_off_match by done. by rewrite IH.
Qed.

(** A stretch without the first character of [old] is passed over. *)
Lemma replace_skip_prefix a old s t new :
  PyStr.occurs a s = false →
  PyStr.replace (s +:+ t) (String a old) new
  = (s +:+ PyStr.replace t (String a old) new)%string.
Proof.
  induction s as [|c s IH]; [done|]. rewrite append_cons. cbn [PyStr.occurs].
  destruct (Ascii.eqb_spec a c) as [|Hne]; [done|]. intros Hs.
  rewrite replace_off_match.
  - by rewrite IH.
  - simpl. by destruct (Ascii.eqb_spec a c).
Qed.

Lemma startswith_before old d : ∀ s t,
  PyStr.occurs d old = false →
  PyStr.startswith old (s +:+ String d t) = true →
  PyStr.startswith old s = true.
Proof.
  induction old as [|x old IH]; intros s t Hd; [done|].
  cbn [PyStr.occurs] in Hd.
  destruct (Ascii.eqb_spec d x) as [|Hne]; [done|].
  destruct s as [|y s]; [rewrite append_empty_l | rewrite append_cons]; simpl.
  - destruct (Ascii.eqb_spec x d); [congruence | done].
  - destruct (Ascii.eqb x y); [|done]. by apply IH.
Qed.

(** A stretch without [old], closed by a character that is not in [old],
    is passed over. *)
Lemma replace_skip_stretch a old d s t new :
  PyStr.contains (String a old) s = false →
  PyStr.occurs d (String a old) = false →
  PyStr.replace (s +:+ String d t) (String a old) new
  = (s +:+ String d (PyStr.replace t (String a old) new))%string.
Proof.
  intros Hc Hd.
  induction s as [|c s IH]; [rewrite !append_empty_l | rewrite !append_cons].
  - rewrite replace_off_match; [done|].
    simpl in *. destruct (Ascii.eqb_spec a d) as [->|]; [|done].
    by rewrite Ascii.eqb_refl in Hd.
  - cbn [PyStr.contains] in Hc. apply orb_false_iff in Hc as [Hpre Hc].
    rewrite replace_off_match.
    + by rewrite IH.
    + destruct (PyStr.startswith (String a old) (String c (s +:+ String d t)))
        eqn:Hs; [|done].
      apply (startswith_before _ d (String c s) t Hd) in Hs. congruence.
Qed.

(** Removing one character goes through a concatenation. *)
Lemma remove_char_app c s t :
  PyStr.replace (s +:+ t) (String c "") ""
  = (PyStr.replace s (String c "") "" +:+ PyStr.replace t (String c "") "")%string.
Proof.
  unfold PyStr.replace.
  induction s as [|b s IH]; [done|]. rewrite append_cons.
  cbn [PyStr.replace_scan PyStr.startswith String.length Nat.sub].
  destruct (Ascii.eqb c b); rewrite IH; reflexivity.
Qed.

Lemma remove_char_absent c s :
  PyStr.occurs c s = false → PyStr.replace s (String c "") "" = s.
Proof.
  intros Hc. apply replace_absent.
  destruct (PyStr.contains (String c "") s) eqn:Hin; [|done].
  apply (contains_occurs _ _ c) in Hin; [congruence|].
  simpl. by rewrite Ascii.eqb_refl.
Qed.

Lemma length_sublist_chars s : length (PyStr.chars s) = String.length s.
Proof. induction s as [|c s IH]; simpl; [done|]. by rewrite IH. Qed.

Lemma replace_length_le s old :
  String.length (PyStr.replace s old "") ≤ String.length s.
Proof.
  rewrite <- !length_sublist_chars. apply sublist_length, replace_sublist.
Qed.

Lemma replace_scan_length_le old skip s :
  String.length (PyStr.replace_scan old "" skip s) ≤ String.length s.
Proof.
  rewrite <- !length_sublist_chars. apply sublist_length, replace_scan_sublist.
Qed.

(** Where [old] occurs, deleting it makes the string shorter. *)
Lemma replace_present_shorter a old s :
  PyStr.contains (String a old) s = true →
  String.length (PyStr.replace s (String a old) "") < String.length s.
Proof.
  induction s as [|c s IH]; [done|]. intros Hc.
  unfold PyStr.replace in *. cbn [PyStr.replace_scan].
  destruct (PyStr.startswith (String a old) (String c s)) eqn:Hpre.
  - rewrite append_empty_l.
    pose proof (replace_scan_length_le (String a old)
                  (String.length (String a old) - 1) s).
    cbn [String.length] in *. lia.
  - cbn [PyStr.contains] in Hc. rewrite Hpre in Hc. simpl in Hc.
    cbn [String.length]. apply IH in Hc. lia.
Qed.

(** ** What the label rewriting yields *)

Lemma rewrite_label_free node label :
  PyStr.occurs "("%char (rewrite_label node label) = false
  ∧ PyStr.occurs ","%char (rewrite_label node label) = false
  ∧ PyStr.occurs " "%char (rewrite_label node label) = false.
Proof.
  unfold rewrite_label.
  set (s1 := PyStr.replace label "(" "").
  set (s2 := PyStr.replace s1 "), flow)" "").
  set (s3 := PyStr.replace s2 node "").
  set (s4 := PyStr.replace s3 "," "").
  split; [|split].
  - apply (occurs_sublist _ _ s1); [|apply replace_char_gone].
    do 3 (etrans; [apply replace_sublist|]). apply replace_sublist.
  - apply (occurs_sublist _ _ s4); [apply replace_sublist | apply replace_char_gone].
  - apply replace_char_gone.
Qed.

Lemma marker_absent label :
  PyStr.occurs ","%char label = false →
  PyStr.contains "), flow)" label = false.
Proof.
  intros Hcomma. destruct (PyStr.contains "), flow)" label) eqn:Hin; [|done].
  apply (contains_occurs _ _ ","%char) in Hin; [congruence | reflexivity].
Qed.

(** The labels the rewriting leaves alone are those without "(", "," and
    space in which the bus label does not occur. *)
Theorem rewrite_label_unchanged_iff (node label : string) :
  rewrite_label node label = label
  ↔ PyStr.occurs "("%char label = false
    ∧ PyStr.occurs ","%char label = false
    ∧ PyStr.occurs " "%char label = false
    ∧ (node = ""%string ∨ PyStr.contains node label = false).
Proof.
  split.
  - intros Hfix. pose proof (rewrite_label_free node label) as (Hp & Hc & Hs).
    rewrite Hfix in Hp, Hc, Hs. repeat split; try done.
    destruct node as [|a node]; [by left|right].
    destruct (PyStr.contains (String a node) label) eqn:Hin; [|done].
    exfalso. unfold rewrite_label in Hfix.
    rewrite (remove_char_absent _ _ Hp) in Hfix.
    rewrite (replace_absent _ _ _ _ (marker_absent _ Hc)) in Hfix.
    apply replace_present_shorter in Hin.
    pose proof (replace_length_le
                  (PyStr.replace (PyStr.replace label (String a node) "") "," "")
                  " ") as H1.
    pose proof (replace_length_le (PyStr.replace label (String a node) "") ",")
      as H2.
    rewrite Hfix in H1. lia.
  - intros (Hp & Hc & Hs & Hnode). unfold rewrite_label.
    rewrite (remove_char_absent _ _ Hp).
    rewrite (replace_absent _ _ _ _ (marker_absent _ Hc)).
    assert (PyStr.replace label node "" = label) as ->.
    { destruct Hnode as [->|Hnode]; [apply intersperse_empty|].
      destruct node; [apply intersperse_empty | by apply replace_absent]. }
    by rewrite (remove_char_absent _ _ Hc), (remove_char_absent _ _ Hs).
Qed.

Lemma clean_name_cons name :
  clean_name name →
  ∃ a rest, name = String a rest
            ∧ a ≠ "("%char ∧ a ≠ ")"%char ∧ a ≠ ","%char ∧ a ≠ " "%char.
Proof.
  intros (Hne & Hp & Hq & Hc & Hs). destruct name as [|a rest]; [done|].
  exists a, rest. simpl in *. split; [done|].
  repeat split; intros ->; simpl in *; congruence.
Qed.

(** The first three steps on the label of a flow: the parentheses and the
    marker go, the two names stay, joined by ", ". *)
Lemma flow_label_stripped a b :
  clean_name a → clean_name b →
  PyStr.replace (PyStr.replace (flow_label a b) "(" "") "), flow)" ""
  = (a +:+ ", " +:+ b)%string.
Proof.
  intros (_ & Hap & Haq & Hac & Has) (_ & Hbp & Hbq & Hbc & Hbs).
  unfold flow_label.
  rewrite !remove_char_app, (remove_char_absent _ a), (remove_char_absent _ b)
    by done.
  change (PyStr.replace "((" "(" "") with ""%string.
  change (PyStr.replace ", " "(" "") with ", "%string.
  change (PyStr.replace "), flow)" "(" "") with "), flow)"%string.
  rewrite append_empty_l.
  rewrite <- (append_assoc ", " b), <- (append_assoc a).
  rewrite replace_skip_prefix.
  - change (PyStr.replace "), flow)" "), flow)" "") with ""%string.
    by rewrite append_nil_r.
  - rewrite !occurs_app, Haq, Hbq. reflexivity.
Qed.

Lemma rewrite_label_flow (bus other : string) :
  clean_name bus → clean_name other →
  PyStr.contains bus other = false →
  rewrite_label bus (flow_label bus other) = other
  ∧ rewrite_label bus (flow_label other bus) = other.
Proof.
  intros Hbus Hother Hin.
  destruct (clean_name_cons _ Hbus) as (x & bus' & -> & Hx1 & Hx2 & Hx3 & Hx4).
  pose proof Hbus as (_ & Hbp & Hbq & Hbc & Hbs).
  pose proof Hother as (_ & Hop & Hoq & Hoc & Hos).
  unfold rewrite_label. split.
  - rewrite (flow_label_stripped _ _ Hbus Hother).
    rewrite replace_at_match, append_empty_l.
    rewrite (replace_skip_prefix x bus' ", " other).
    2: { simpl. destruct (Ascii.eqb_spec x ","); [done|].
         by destruct (Ascii.eqb_spec x " "). }
    rewrite (replace_absent _ _ _ _ Hin).
    rewrite remove_char_app, (remove_char_absent _ other) by done.
    change (PyStr.replace ", " "," "") with " "%string.
    rewrite remove_char_app, (remove_char_absent _ other) by done.
    reflexivity.
  - rewrite (flow_label_stripped _ _ Hother Hbus).
    change (", " +:+ String x bus')%string
      with (String "," (" " +:+ String x bus')).
    rewrite (replace_skip_stretch x bus' "," other) by done.
    rewrite (replace_skip_prefix x bus' " " (String x bus')).
    2: { simpl. by destruct (Ascii.eqb_spec x " "). }
    rewrite <- (append_nil_r (String x bus')) at 1.
    rewrite replace_at_match, replace_empty.
    change (String "," (" " +:+ "" +:+ ""))%string with ", "%string.
    rewrite remove_char_app, (remove_char_absent _ other) by done.
    change (PyStr.replace ", " "," "") with " "%string.
    rewrite remove_char_app, (remove_char_absent _ other) by done.
    change (PyStr.replace " " " " "") with ""%string.
    apply append_nil_r.
Qed.

(** For a bus and another node with clean names, the bus label not
    occurring in the other name, the legend label of the flow between them
    is rewritten to the other name, whichever way the flow goes. *)
Theorem rewrite_label_other_endpoint (bus other : string) :
  clean_name bus → clean_name other →
  PyStr.contains bus other = false →
  rewrite_label bus (flow_label bus other) = other
  ∧ rewrite_label bus (flow_label other bus) = other.
Proof. apply rewrite_label_flow. Qed.

Lemma rewrite_label_other_endpoint_witness :
  rewrite_label "electricity" (flow_label "electricity" "demand_elec")
  = "demand_elec"%string
  ∧ rewrite_label "electricity" (flow_label "demand_elec" "electricity")
    = "demand_elec"%string.
Proof.
  apply (rewrite_label_other_endpoint "electricity" "demand_elec");
    repeat split; try discriminate; reflexivity.
Defined.

(** Where the bus label occurs in the other name, that part goes too. *)
Example rewrite_label_bus_inside_other :
  rewrite_label "electricity" (flow_label "electricity" "electricity_2")
  = "_2"%string.
Proof. reflexivity. Qed.

(** ** More on [shape_legend] *)

(** No primitive of the store ends in a [KeyError], and sequencing keeps
    it so. *)
Lemma no_key_error_ret {A} (a : A) : no_key_error (mret a).
Proof. intros st key. discriminate. Qed.

Lemma no_key_error_bind {A B} (m : py A) (k : A → py B) :
  no_key_error m → (∀ a, no_key_error (k a)) → no_key_error (m ≫= k).
Proof.
  intros Hm Hk st key. unfold mbind, py_bind.
  destruct (m st) as [[a st']|e] eqn:E.
  - apply Hk.
  - intros [= ->]. by apply (Hm st key).
Qed.

Lemma no_key_error_read_handles l : no_key_error (PyList.read_handles l).
Proof.
  intros st key. unfold PyList.read_handles.
  destruct (handle_lists st !! l); discriminate.
Qed.

Lemma no_key_error_read_labels l : no_key_error (PyList.read_labels l).
Proof.
  intros st key. unfold PyList.read_labels.
  destruct (label_lists st !! l); discriminate.
Qed.

Lemma no_key_error_new_labels : no_key_error PyList.new_labels.
Proof. intros st key. discriminate. Qed.

Lemma no_key_error_append l x : no_key_error (PyList.append l x).
Proof.
  intros st key. unfold PyList.append.
  destruct (label_lists st !! l); discriminate.
Qed.

Lemma no_key_error_reverse_handles l : no_key_error (PyList.reverse_handles l).
Proof.
  intros st key. unfold PyList.reverse_handles.
  destruct (handle_lists st !! l); discriminate.
Qed.

Lemma no_key_error_reverse_labels l : no_key_error (PyList.reverse_labels l).
Proof.
  intros st key. unfold PyList.reverse_labels.
  destruct (label_lists st !! l); discriminate.
Qed.

Lemma no_key_error_get_position a : no_key_error (PyAxes.get_position a).
Proof.
  intros st key. unfold PyAxes.get_position.
  destruct (axes_objs st !! a); discriminate.
Qed.

Lemma no_key_error_set_position a b : no_key_error (PyAxes.set_position a b).
Proof.
  intros st key. unfold PyAxes.set_position.
  destruct (axes_objs st !! a); discriminate.
Qed.

Lemma no_key_error_install_legend a call :
  no_key_error (PyAxes.install_legend a call).
Proof.
  intros st key. unfold PyAxes.install_legend.
  destruct (axes_objs st !! a); discriminate.
Qed.

Lemma no_key_error_contents {A} (read : addr → py (list A)) arg :
  (∀ l, no_key_error (read l)) → no_key_error (PyAxes.contents read arg).
Proof.
  intros Hread. destruct arg as [l|]; cbn [PyAxes.contents].
  - apply no_key_error_bind; [apply Hread|]. intros xs. apply no_key_error_ret.
  - apply no_key_error_ret.
Qed.

Lemma no_key_error_legend a bbox loc ncol handles labels :
  no_key_error (PyAxes.legend a bbox loc ncol handles labels).
Proof.
  unfold PyAxes.legend.
  apply no_key_error_bind;
    [apply no_key_error_contents, no_key_error_read_handles|intros hs].
  apply no_key_error_bind;
    [apply no_key_error_contents, no_key_error_read_labels|intros ls].
  apply no_key_error_install_legend.
Qed.


Create HintDb no_key_error.
#[local] Hint Resolve no_key_error_ret no_key_error_read_handles
  no_key_error_read_labels no_key_error_new_labels no_key_error_append
  no_key_error_reverse_handles no_key_error_reverse_labels
  no_key_error_get_position no_key_error_set_position no_key_error_legend
  : no_key_error.



Lemma store_after_leaves_rest node rev kw st lh ll la hs ls ax arg_hs arg_ls :
  call_in kw st lh ll la hs ls ax →
  leaves_rest st (store_after node rev kw st lh la hs ls ax arg_hs arg_ls) lh la.
Proof.
  intros (Hh & Hl & Ha & Hhs & Hls & Hax). unfold leaves_rest, store_after; simpl.
  split; [|split; [|split]].
  - intros l Hne. by rewrite lookup_insert_ne.
  - intros l xs Hl'. rewrite lookup_insert_ne; [done|].
    by apply (fresh_label_addr _ _ xs).
  - exists (fresh (dom (label_lists st))). split.
    + apply not_elem_of_dom, is_fresh.
    + apply dom_insert_L.
  - intros l Hne. by rewrite lookup_insert_ne.
Qed.

(** A call, in either copy, leaves every list of handles but the one it was
    passed, every list of labels that was in the store and every other axes
    as they were; it adds one list of labels at an address that was free. *)
Theorem shape_legend_leaves_rest node rv kw st lh ll la hs ls ax :
  call_in kw st lh ll la hs ls ax →
  ∃ st1 st2,
    StorageInvestmentPlot.shape_legend node rv kw st = Ok (la, st1)
    ∧ leaves_rest st st1 lh la
    ∧ VariableChp.shape_legend node rv kw st = Ok (la, st2)
    ∧ leaves_rest st st2 lh la.
Proof.
  intros Hin.
  pose proof (storage_investment_plot_run node rv _ _ _ _ _ _ _ _ Hin) as H1.
  pose proof (variable_chp_run node rv _ _ _ _ _ _ _ _ Hin) as H2.
  cbv zeta in H1, H2. eexists _, _.
  split; [exact H1|]. split; [by eapply store_after_leaves_rest|].
  split; [exact H2|]. by eapply store_after_leaves_rest.
Qed.

Lemma shape_legend_leaves_rest_witness :
  ∃ st1 st2,
    StorageInvestmentPlot.shape_legend "electricity" None (Sample.kwargs None)
      Sample.st = Ok (3%positive, st1)
    ∧ leaves_rest Sample.st st1 1%positive 3%positive
    ∧ VariableChp.shape_legend "electricity" None (Sample.kwargs None)
        Sample.st = Ok (3%positive, st2)
    ∧ leaves_rest Sample.st st2 1%positive 3%positive.
Proof.
  apply (shape_legend_leaves_rest "electricity" None (Sample.kwargs None)
           Sample.st 1%positive 2%positive 3%positive
           Sample.handles Sample.labels Sample.axes).
  repeat split; reflexivity.
Defined.

(** Without reversal, which is the default of the
    [storage_investment_plot.py] copy and [reverse=False] in the other, the
    caller's handles are left in their order and the legend receives them
    as passed, with the rewritten labels in the order of the labels and the
    placement the caller gave or (1, 0.5), "center left", one column. *)
Theorem shape_legend_plain node rv kw st lh ll la hs ls ax :
  call_in kw st lh ll la hs ls ax →
  (default StorageInvestmentPlot.reverse_default rv = false →
   ∃ st' ax',
     StorageInvestmentPlot.shape_legend node rv kw st = Ok (la, st')
     ∧ handle_lists st' !! lh = Some hs
     ∧ axes_objs st' !! la = Some ax'
     ∧ legend_ ax' = Some (plain_legend node kw hs ls))
  ∧ (default VariableChp.reverse_default rv = false →
     ∃ st' ax',
       VariableChp.shape_legend node rv kw st = Ok (la, st')
       ∧ handle_lists st' !! lh = Some hs
       ∧ axes_objs st' !! la = Some ax'
       ∧ legend_ ax' = Some (plain_legend node kw hs ls)).
Proof.
  intros Hin.
  pose proof (storage_investment_plot_run node rv _ _ _ _ _ _ _ _ Hin) as H1.
  pose proof (variable_chp_run node rv _ _ _ _ _ _ _ _ Hin) as H2.
  cbv zeta in H1, H2. split; intros Hrev; rewrite Hrev in *.
  - eexists _, _. split; [exact H1|]. unfold store_after; simpl.
    split; [apply lookup_insert_eq|]. split; [apply lookup_insert_eq|]. done.
  - eexists _, _. split; [exact H2|]. unfold store_after; simpl.
    split; [apply lookup_insert_eq|]. split; [apply lookup_insert_eq|]. done.
Qed.

Lemma shape_legend_plain_witness :
  (default StorageInvestmentPlot.reverse_default None = false →
   ∃ st' ax',
     StorageInvestmentPlot.shape_legend "electricity" None (Sample.kwargs None)
       Sample.st = Ok (3%positive, st')
     ∧ handle_lists st' !! 1%positive = Some Sample.handles
     ∧ axes_objs st' !! 3%positive = Some ax'
     ∧ legend_ ax'
       = Some (plain_legend "electricity" (Sample.kwargs None)
                 Sample.handles Sample.labels))
  ∧ (default VariableChp.reverse_default None = false →
     ∃ st' ax',
       VariableChp.shape_legend "electricity" None (Sample.kwargs None)
         Sample.st = Ok (3%positive, st')
       ∧ handle_lists st' !! 1%positive = Some Sample.handles
       ∧ axes_objs st' !! 3%positive = Some ax'
       ∧ legend_ ax'
         = Some (plain_legend "electricity" (Sample.kwargs None)
                   Sample.handles Sample.labels)).
Proof.
  apply (shape_legend_plain "electricity" None (Sample.kwargs None)
           Sample.st 1%positive 2%positive 3%positive
           Sample.handles Sample.labels Sample.axes).
  repeat split; reflexivity.
Defined.

(** With [reverse=True] the [storage_investment_plot.py] copy reverses the
    caller's list of handles in place, leaves the caller's labels alone,
    and hands [None] for both to the legend, whatever the lists are. *)
Theorem storage_investment_plot_reverse_loses_lists node kw st lh ll la hs ls ax :
  call_in kw st lh ll la hs ls ax →
  ∃ st' ax' call,
    StorageInvestmentPlot.shape_legend node (Some true) kw st = Ok (la, st')
    ∧ handle_lists st' !! lh = Some (reverse hs)
    ∧ label_lists st' !! ll = Some ls
    ∧ axes_objs st' !! la = Some ax'
    ∧ legend_ ax' = Some call
    ∧ lg_handles call = None
    ∧ lg_labels call = None.
Proof.
  intros Hin.
  pose proof (storage_investment_plot_run node (Some true) _ _ _ _ _ _ _ _ Hin)
    as Hrun.
  cbv zeta in Hrun. simpl in Hrun.
  destruct Hin as (Hh & Hl & Ha & Hhs & Hls & Hax).
  pose proof (fresh_label_addr _ _ _ Hls) as Hfresh.
  eexists _, _, _. split; [exact Hrun|]. unfold store_after; simpl.
  split; [apply lookup_insert_eq|].
  split; [by rewrite lookup_insert_ne|].
  split; [apply lookup_insert_eq|]. done.
Qed.

Lemma storage_investment_plot_reverse_loses_lists_witness :
  ∃ st' ax' call,
    StorageInvestmentPlot.shape_legend "electricity" (Some true)
      (Sample.kwargs None) Sample.st = Ok (3%positive, st')
    ∧ handle_lists st' !! 1%positive = Some (reverse Sample.handles)
    ∧ label_lists st' !! 2%positive = Some Sample.labels
    ∧ axes_objs st' !! 3%positive = Some ax'
    ∧ legend_ ax' = Some call
    ∧ lg_handles call = None
    ∧ lg_labels call = None.
Proof.
  apply (storage_investment_plot_reverse_loses_lists "electricity"
           (Sample.kwargs None) Sample.st 1%positive 2%positive 3%positive
           Sample.handles Sample.labels Sample.axes).
  repeat split; reflexivity.
Defined.

(** A second call of the [variable_chp.py] copy on the same arguments, with
    reversal, turns the caller's handles back into their first order but
    reverses a new copy of the labels: the legend of the second call
    receives the handles in order and the labels reversed. *)
Theorem variable_chp_second_call_unpairs node rv kw st lh ll la hs ls ax :
  call_in kw st lh ll la hs ls ax →
  default VariableChp.reverse_default rv = true →
  ∃ st1 st2 ax2 call,
    VariableChp.shape_legend node rv kw st = Ok (la, st1)
    ∧ VariableChp.shape_legend node rv kw st1 = Ok (la, st2)
    ∧ handle_lists st2 !! lh = Some hs
    ∧ label_lists st2 !! ll = Some ls
    ∧ axes_objs st2 !! la = Some ax2
    ∧ legend_ ax2 = Some call
    ∧ lg_handles call = Some hs
    ∧ lg_labels call = Some (reverse (rewrite_label node <$> ls)).
Proof.
  intros Hin Hrev.
  pose proof (variable_chp_run node rv _ _ _ _ _ _ _ _ Hin) as Hrun1.
  cbv zeta in Hrun1. rewrite Hrev in Hrun1.
  pose proof (call_in_after node true _ _ _ _ _ _ _ _
                (Some (reverse hs))
                (Some (reverse (rewrite_label node <$> ls))) Hin) as Hin1.
  pose proof (variable_chp_run node rv _ _ _ _ _ _ _ _ Hin1) as Hrun2.
  cbv zeta in Hrun2. rewrite Hrev in Hrun2. rewrite reverse_involutive in Hrun2.
  destruct Hin1 as (_ & _ & _ & _ & Hls1 & _).
  pose proof (fresh_label_addr _ _ _ Hls1) as Hfresh.
  eexists _, _, _, _. split; [exact Hrun1|]. split; [exact Hrun2|].
  split; [|split; [|split; [apply lookup_insert_eq|done]]].
  - cbn [store_after handle_lists].
    by rewrite lookup_insert_eq, reverse_involutive.
  - cbn [store_after label_lists] in *. by rewrite lookup_insert_ne.
Qed.

Lemma variable_chp_second_call_unpairs_witness :
  ∃ st1 st2 ax2 call,
    VariableChp.shape_legend "electricity" None (Sample.kwargs None) Sample.st
    = Ok (3%positive, st1)
    ∧ VariableChp.shape_legend "electricity" None (Sample.kwargs None) st1
      = Ok (3%positive, st2)
    ∧ handle_lists st2 !! 1%positive = Some Sample.handles
    ∧ label_lists st2 !! 2%positive = Some Sample.labels
    ∧ axes_objs st2 !! 3%positive = Some ax2
    ∧ legend_ ax2 = Some call
    ∧ lg_handles call = Some Sample.handles
    ∧ lg_labels call
      = Some (reverse (rewrite_label "electricity" <$> Sample.labels)).
Proof.
  apply (variable_chp_second_call_unpairs "electricity" None
           (Sample.kwargs None) Sample.st 1%positive 2%positive 3%positive
           Sample.handles Sample.labels Sample.axes).
  - repeat split; reflexivity.
  - reflexivity.
Defined.

(** Reversing two lists of one length reverses their pairs. *)
Lemma zip_reverse {A B} (l : list A) : ∀ k : list B,
  length l = length k → zip (reverse l) (reverse k) = reverse (zip l k).
Proof.
  induction l as [|x l IH]; intros [|y k] Hlen; try done. simpl in Hlen.
  rewrite !reverse_cons. cbn [zip_with]. rewrite reverse_cons.
  rewrite zip_with_app by (rewrite !length_reverse; lia).
  rewrite IH by lia. done.
Qed.

(** When there are as many handles as labels, the [variable_chp.py] copy
    hands the legend every handle with the rewriting of its own label:
    the pairs are those of the lists passed, in reverse order if [reverse]
    is set and in their order if not. *)
Theorem variable_chp_keeps_pairs node rv kw st lh ll la hs ls ax :
  call_in kw st lh ll la hs ls ax →
  length hs = length ls →
  ∃ st' ax' call hs' ls',
    VariableChp.shape_legend node rv kw st = Ok (la, st')
    ∧ axes_objs st' !! la = Some ax'
    ∧ legend_ ax' = Some call
    ∧ lg_handles call = Some hs' ∧ lg_labels call = Some ls'
    ∧ zip hs' ls'
      = (if default VariableChp.reverse_default rv
         then reverse (zip hs (rewrite_label node <$> ls))
         else zip hs (rewrite_label node <$> ls))
    ∧ zip hs' ls' ≡ₚ zip hs (rewrite_label node <$> ls).
Proof.
  intros Hin Hlen.
  pose proof (variable_chp_run node rv _ _ _ _ _ _ _ _ Hin) as Hrun.
  cbv zeta in Hrun.
  assert (zip (reverse hs) (reverse (rewrite_label node <$> ls))
          = reverse (zip hs (rewrite_label node <$> ls))) as Hzip
    by (apply zip_reverse; by rewrite length_fmap).
  eexists _, _, _, _, _. split; [exact Hrun|].
  unfold store_after; simpl.
  split; [apply lookup_insert_eq|]. split; [reflexivity|]. simpl.
  split; [reflexivity|]. split; [reflexivity|].
  destruct (default VariableChp.reverse_default rv).
  - rewrite Hzip. split; [done|]. apply reverse_Permutation.
  - done.
Qed.

Lemma variable_chp_keeps_pairs_witness :
  ∃ st' ax' call hs' ls',
    VariableChp.shape_legend "electricity" None (Sample.kwargs None) Sample.st
    = Ok (3%positive, st')
    ∧ axes_objs st' !! 3%positive = Some ax'
    ∧ legend_ ax' = Some call
    ∧ lg_handles call = Some hs' ∧ lg_labels call = Some ls'
    ∧ zip hs' ls'
      = (if default VariableChp.reverse_default None
         then reverse (zip Sample.handles
                         (rewrite_label "electricity" <$> Sample.labels))
         else zip Sample.handles (rewrite_label "electricity" <$> Sample.labels))
    ∧ zip hs' ls'
      ≡ₚ zip Sample.handles (rewrite_label "electricity" <$> Sample.labels).
Proof.
  apply (variable_chp_keeps_pairs "electricity" None (Sample.kwargs None)
           Sample.st 1%positive 2%positive 3%positive
           Sample.handles Sample.labels Sample.axes).
  - repeat split; reflexivity.
  - reflexivity.
Defined.

(** With one label fewer than handles the reversal pairs the handles
    anew. *)
Example reversal_unpairs_unequal_lists :
  zip (reverse [10; 20; 30]) (reverse ["pv"; "wind"]%string)
  = [(30, "wind"); (20, "pv")]%string
  ∧ zip [10; 20; 30] ["pv"; "wind"]%string = [(10, "pv"); (20, "wind")]%string.
Proof. split; reflexivity. Qed.

(** ** Layouts in a row *)

Module MoreFloatAxesProofs.
Import PrimFloat FloatAxes.
#[local] Set Warnings "-inexact-float".
#[local] Open Scope float_scope.

(** Layouts in a row, as [shape_legend] called again and again on one axes
    does them, never move the lower-left corner of the axes: after [n] of
    them [x0] and [y0] are those of the start.  The width is another
    matter, even with [plotshare=1] as [variable_chp.py] passes it: the box
    [0.125, 0.11, 0.775, 0.77] is left as it is, while the box with corners
    0.043 and 0.168 reports the width 0.125 before and 0.12499999999999999
    after one such layout, where it stays at the next. *)
Theorem layout_n_times_keeps_corner :
  (∀ n p box,
     let after := Nat.iter n (layout p) box in
     x0 after = x0 box ∧ y0 after = y0 box)
  ∧ layout 1 FloatSample.box = FloatSample.box
  ∧ (let box := FloatSample.narrow in
     width box = 0.125
     ∧ width (layout 1 box) = 0.12499999999999999
     ∧ width (layout 1 box) ≠ width box
     ∧ layout 1 (layout 1 box) = layout 1 box).
Proof.
  split; [|split].
  - intros n p box. induction n as [|n [IHx IHy]]; [done|].
    cbn [Nat.iter]. split; [exact IHx|exact IHy].
  - vm_compute. reflexivity.
  - vm_compute. split; [|split; [|split]]; try reflexivity; discriminate.
Qed.

End MoreFloatAxesProofs.

(** ** More on the ticks *)

Section MoreTickProofs.

Context {Timestamp : Type} (strftime : Timestamp → string → string).

Local Open Scope Z_scope.

Lemma set_ticks_run (dates : list Timestamp) (distance : Z) :
  0 < distance →
  let positions :=
    (fun i => 0 + i * distance)
      <$> seqZ 0 (PySeq.range_length 0 (Z.of_nat (length dates)) distance) in
  set_ticks strftime dates distance
  = Ok (mkTickCalls positions
          ((fun item => strftime item "%d-%m-%Y")
             <$> omap (fun i => dates !! Z.to_nat i) positions)).
Proof.
  intros Hd positions. unfold set_ticks, PySeq.range, PySeq.slice_from_0.
  destruct (Z.eqb_spec distance 0) as [|_]; [lia|].
  destruct (Z.ltb_spec 0 distance) as [_|]; [|lia]. reflexivity.
Qed.

Lemma set_ticks_positive (dates : list Timestamp) (distance : Z) :
  dates ≠ [] →
  0 < distance →
  ∃ positions labels,
    set_ticks strftime dates distance = Ok (mkTickCalls positions labels)
    ∧ length labels = length positions
    ∧ Z.of_nat (length positions) = (Z.of_nat (length dates) - 1) / distance + 1
    ∧ (∀ k, (k < length positions)%nat →
         positions !! k = Some (Z.of_nat k * distance))
    ∧ Z.of_nat (length dates) ≤ Z.of_nat (length positions) * distance.
Proof.
  intros Hne Hd.
  eexists _, _. split; [by apply set_ticks_run|].
  assert (0 < Z.of_nat (length dates)) as Hlen
    by (destruct dates; [done | simpl; lia]).
  assert (0 ≤ (Z.of_nat (length dates) - 1) / distance)
    by (apply Z.div_pos; lia).
  assert (PySeq.range_length 0 (Z.of_nat (length dates)) distance
          = (Z.of_nat (length dates) - 1) / distance + 1) as Hcount.
  { unfold PySeq.range_length.
    destruct (Z.ltb_spec 0 distance); [|lia].
    destruct (Z.ltb_spec 0 (Z.of_nat (length dates))); [|lia].
    by rewrite Z.sub_0_r. }
  rewrite Hcount. split; [|split; [|split]].
  - rewrite length_fmap. symmetry. eapply Forall2_length, omap_lookup_in_range.
    apply Forall_fmap, Forall_seqZ. intros i Hi. simpl.
    assert (distance * ((Z.of_nat (length dates) - 1) / distance)
            ≤ Z.of_nat (length dates) - 1) by (apply Z.mul_div_le; lia).
    nia.
  - rewrite length_fmap, length_seqZ. lia.
  - intros k Hk. rewrite length_fmap, length_seqZ in Hk.
    rewrite list_lookup_fmap, lookup_seqZ_lt by lia. simpl; f_equal; lia.
  - rewrite length_fmap, length_seqZ, Z2Nat.id by lia.
    pose proof (Z.mod_pos_bound (Z.of_nat (length dates) - 1) distance Hd).
    pose proof (Z.div_mod (Z.of_nat (length dates) - 1) distance). nia.
Qed.

(** For a positive distance the ticks are the multiples of the distance
    from 0 on, as many as fit into the index, and there are as many labels
    as ticks: the first tick is at 0, the ticks are a distance apart and the
    next multiple would lie behind the last timestamp. *)
Theorem set_ticks_multiples (dates : list Timestamp) (distance : Z) :
  dates ≠ [] →
  0 < distance →
  ∃ positions labels,
    set_ticks strftime dates distance = Ok (mkTickCalls positions labels)
    ∧ length labels = length positions
    ∧ Z.of_nat (length positions) = (Z.of_nat (length dates) - 1) / distance + 1
    ∧ (∀ k, (k < length positions)%nat →
         positions !! k = Some (Z.of_nat k * distance))
    ∧ Z.of_nat (length dates) ≤ Z.of_nat (length positions) * distance.
Proof. apply set_ticks_positive. Qed.

(** From 14 timestamps on, the script sets between 8 and 20 ticks, the
    first at position 0, and as many labels. *)
Theorem plot_ticks_count (dates : list Timestamp) :
  (14 ≤ length dates)%nat →
  ∃ positions labels,
    plot_ticks strftime dates = Ok (mkTickCalls positions labels)
    ∧ length labels = length positions
    ∧ (8 ≤ length positions ≤ 20)%nat
    ∧ positions !! 0%nat = Some 0.
Proof.
  intros Hlen.
  destruct (plot_ticks_cases strftime dates) as (Hd & Hpos & _).
  assert (0 < tick_distance dates) as Hd0 by (by apply Hpos).
  destruct (set_ticks_positive dates (tick_distance dates))
    as (positions & labels & Hcalls & Hlab & Hcount & Hk & _);
    [by destruct dates | done |].
  exists positions, labels. split; [exact Hcalls|]. split; [done|].
  set (n := Z.of_nat (length dates)) in *.
  assert (7 * (n / 7) ≤ n < 7 * (n / 7) + 7) as Hq.
  { pose proof (Z.div_mod n 7). pose proof (Z.mod_pos_bound n 7). lia. }
  assert (7 ≤ (n - 1) / tick_distance dates).
  { apply Z.div_le_lower_bound; lia. }
  assert ((n - 1) / tick_distance dates < 20).
  { apply Z.div_lt_upper_bound; lia. }
  split; [lia|]. rewrite Hk by lia. f_equal; lia.
Qed.

(** Below 14 timestamps the script sets no usable ticks: with 7 to 13 of
    them the distance is 0 and [range] raises [ValueError]; with 1 to 6 the
    distance is -1, there is no tick and one label, that of the first
    timestamp; with none there is no tick and no label. *)
Theorem plot_ticks_short_index (dates : list Timestamp) :
  ((7 ≤ length dates < 14)%nat →
   plot_ticks strftime dates
   = Err (ValueError "range() arg 3 must not be zero"))
  ∧ (∀ first rest, dates = first :: rest → (length dates < 7)%nat →
       plot_ticks strftime dates
       = Ok (mkTickCalls [] [strftime first "%d-%m-%Y"]))
  ∧ (dates = [] → plot_ticks strftime dates = Ok (mkTickCalls [] [])).
Proof.
  destruct (plot_ticks_cases strftime dates) as (Hd & _ & Hzero).
  split; [exact Hzero|]. split.
  - intros first rest -> Hlen. unfold plot_ticks. rewrite Hd.
    rewrite Z.div_small by lia.
    unfold set_ticks, PySeq.range, PySeq.slice_from_0, PySeq.range_length.
    cbn [Z.eqb Z.sub Z.add Z.opp Z.ltb Z.compare Z.pos_sub].
    destruct (Z.ltb_spec (Z.of_nat (length (first :: rest))) 0) as [Hneg|_];
      [lia|].
    rewrite Z.min_l by (simpl; lia). reflexivity.
  - intros ->. reflexivity.
Qed.

End MoreTickProofs.

Lemma set_ticks_multiples_witness :
  let strftime := fun (hour : nat) (fmt : string) =>
                    (fmt +:+ "@" +:+ pretty hour)%string in
  ∃ positions labels,
    set_ticks strftime (seq 0 240) 33 = Ok (mkTickCalls positions labels)
    ∧ length labels = length positions
    ∧ Z.of_nat (length positions)
      = ((Z.of_nat (length (seq 0 240)) - 1) / 33 + 1)%Z
    ∧ (∀ k, (k < length positions)%nat →
         positions !! k = Some (Z.of_nat k * 33)%Z)
    ∧ (Z.of_nat (length (seq 0 240)) ≤ Z.of_nat (length positions) * 33)%Z.
Proof.
  apply (set_ticks_multiples
           (fun (hour : nat) (fmt : string) => (fmt +:+ "@" +:+ pretty hour)%string)
           (seq 0 240) 33%Z).
  - discriminate.
  - reflexivity.
Defined.

Lemma plot_ticks_count_witness :
  let strftime := fun (hour : nat) (fmt : string) =>
                    (fmt +:+ "@" +:+ pretty hour)%string in
  ∃ positions labels,
    plot_ticks strftime (seq 0 240) = Ok (mkTickCalls positions labels)
    ∧ length labels = length positions
    ∧ (8 ≤ length positions ≤ 20)%nat
    ∧ positions !! 0%nat = Some 0%Z.
Proof.
  apply (plot_ticks_count
           (fun (hour : nat) (fmt : string) => (fmt +:+ "@" +:+ pretty hour)%string)
           (seq 0 240)).
  rewrite length_seq. lia.
Defined.

(** ** The legend of a bus *)

Lemma rewrite_labels_of_flows node ls others :
  clean_name node →
  Forall2 (names_flow node) ls others →
  rewrite_label node <$> ls = others.
Proof.
  intros Hnode. induction 1 as [|label other ls others Hflow _ IH]; [done|].
  destruct Hflow as (Hclean & Hin & Hlabel).
  destruct (rewrite_label_flow node other Hnode Hclean Hin) as [Hout Hinto].
  csimpl. rewrite IH. by destruct Hlabel as [->| ->]; rewrite ?Hout, ?Hinto.
Qed.

(** When the labels passed are the legend labels of flows between the bus
    and other nodes, with clean names in which the bus label does not
    occur, the legend receives the names of those other nodes: in the order
    of the labels without reversal, in reverse order from the
    [variable_chp.py] copy with reversal. *)
Theorem shape_legend_names_other_nodes
    node rv kw st lh ll la hs ls ax (others : list string) :
  call_in kw st lh ll la hs ls ax →
  clean_name node →
  Forall2 (names_flow node) ls others →
  (default StorageInvestmentPlot.reverse_default rv = false →
   ∃ st' ax' call,
     StorageInvestmentPlot.shape_legend node rv kw st = Ok (la, st')
     ∧ axes_objs st' !! la = Some ax'
     ∧ legend_ ax' = Some call
     ∧ lg_labels call = Some others)
  ∧ ∃ st' ax' call,
      VariableChp.shape_legend node rv kw st = Ok (la, st')
      ∧ axes_objs st' !! la = Some ax'
      ∧ legend_ ax' = Some call
      ∧ lg_labels call
        = Some (if default VariableChp.reverse_default rv
                then reverse others else others).
Proof.
  intros Hin Hnode Hflows.
  pose proof (rewrite_labels_of_flows _ _ _ Hnode Hflows) as Hnames.
  pose proof (storage_investment_plot_run node rv _ _ _ _ _ _ _ _ Hin) as H1.
  pose proof (variable_chp_run node rv _ _ _ _ _ _ _ _ Hin) as H2.
  cbv zeta in H1, H2. rewrite Hnames in H1, H2. split.
  - intros Hrev. rewrite Hrev in H1.
    eexists _, _, _. split; [exact H1|]. unfold store_after; simpl.
    split; [apply lookup_insert_eq|]. done.
  - eexists _, _, _. split; [exact H2|]. unfold store_after; simpl.
    split; [apply lookup_insert_eq|]. done.
Qed.

Lemma shape_legend_names_other_nodes_witness :
  let others := ["pv"; "wind"; "demand"]%string in
  (default StorageInvestmentPlot.reverse_default None = false →
   ∃ st' ax' call,
     StorageInvestmentPlot.shape_legend "electricity" None (Sample.kwargs None)
       Sample.st = Ok (3%positive, st')
     ∧ axes_objs st' !! 3%positive = Some ax'
     ∧ legend_ ax' = Some call
     ∧ lg_labels call = Some others)
  ∧ ∃ st' ax' call,
      VariableChp.shape_legend "electricity" None (Sample.kwargs None)
        Sample.st = Ok (3%positive, st')
      ∧ axes_objs st' !! 3%positive = Some ax'
      ∧ legend_ ax' = Some call
      ∧ lg_labels call
        = Some (if default VariableChp.reverse_default None
                then reverse others else others).
Proof.
  apply (shape_legend_names_other_nodes "electricity" None (Sample.kwargs None)
           Sample.st 1%positive 2%positive 3%positive
           Sample.handles Sample.labels Sample.axes
           ["pv"; "wind"; "demand"]%string).
  - repeat split; reflexivity.
  - repeat split; try discriminate; reflexivity.
  - assert (∀ other label,
              clean_name other → PyStr.contains "electricity" other = false →
              label = flow_label "electricity" other
              ∨ label = flow_label other "electricity" →
              names_flow "electricity" label other) as Hflow
      by (intros other label H1 H2 H3; exact (conj H1 (conj H2 H3))).
    constructor; [|constructor; [|constructor; [|constructor]]]; apply Hflow;
      try reflexivity; try (repeat split; try discriminate; reflexivity).
    + right. reflexivity.
    + right. reflexivity.
    + left. reflexivity.
Defined.
